(** * Aether Lens: the image edit engine of [components/ImageEditor.tsx]

    A shallow embedding of the editor's state (history, cursor, working
    state), of its event handlers and effects, and of the draw routine
    (crop geometry, bounding box, CSS filter string), followed by the
    properties of the edit engine.

    Conventions of the embedding.
    - JavaScript numbers that the editor only ever fills with integers (slider
      values, the rotation, array indices, the natural size of the image)
      are [Z]; the crop geometry, which divides, is carried out in exact
      rational arithmetic on [Q].
    - React state is a record; an event handler together with the effects it
      triggers is one transition on that record.  A transition returns
      [option]: [None] is the run-time [TypeError] raised when the draw
      effect destructures an [undefined] working state. *)

From Stdlib Require Import ZArith QArith String Ascii List Lia Lqa.
From Stdlib Require Import DecimalString.
From stdpp Require Import base option list.

Import ListNotations.
Local Open Scope string_scope.
Local Open Scope Z_scope.
Local Open Scope list_scope.

(** ** Data model *)

(** [cropRatio: 'original' | '1:1' | '4:3' | '16:9'] *)
Inductive CropRatio : Type :=
  | original
  | ratio_1_1
  | ratio_4_3
  | ratio_16_9.

(** The string each enumerant stands for in the source. *)
Definition cropRatio_string (c : CropRatio) : string :=
  match c with
  | original => "original"
  | ratio_1_1 => "1:1"
  | ratio_4_3 => "4:3"
  | ratio_16_9 => "16:9"
  end.

(** [interface EditorState] *)
Record EditorState : Type := mkEditorState {
  brightness : Z;
  contrast : Z;
  saturation : Z;
  rotation : Z;
  cropRatio : CropRatio;
  filterPreset : string
}.

Definition initialState : EditorState :=
  {| brightness := 100;
     contrast := 100;
     saturation := 100;
     rotation := 0;
     cropRatio := original;
     filterPreset := "none" |}.

(** [Partial<EditorState>]: a key is present ([Some]) or absent ([None]). *)
Record PartialState : Type := mkPartial {
  p_brightness : option Z;
  p_contrast : option Z;
  p_saturation : option Z;
  p_rotation : option Z;
  p_cropRatio : option CropRatio;
  p_filterPreset : option string
}.

(** The default argument [{}] of [commitChange]. *)
Definition emptyPartial : PartialState :=
  mkPartial None None None None None None.

(** Object spread [{ ...prev, ...partial }]: every key of [partial]
    overrides the one of [prev]. *)
Definition spread (prev : EditorState) (partial : PartialState) : EditorState :=
  {| brightness := default (brightness prev) (p_brightness partial);
     contrast := default (contrast prev) (p_contrast partial);
     saturation := default (saturation prev) (p_saturation partial);
     rotation := default (rotation prev) (p_rotation partial);
     cropRatio := default (cropRatio prev) (p_cropRatio partial);
     filterPreset := default (filterPreset prev) (p_filterPreset partial) |}.

(** ** JavaScript arrays *)

(** [a[i]]: [undefined] ([None]) outside the array. *)
Definition js_index {A : Type} (a : list A) (i : Z) : option A :=
  if i <? 0 then None else a !! Z.to_nat i.

(** [a.slice(0, e)]: a negative end counts from the end of the array, and
    the end is clamped to the array. *)
Definition js_slice0 {A : Type} (a : list A) (e : Z) : list A :=
  let len := Z.of_nat (length a) in
  let k := if e <? 0 then Z.max (len + e) 0 else Z.min e len in
  take (Z.to_nat k) a.

(** ** Editor state and its transitions *)

(** The three [useState] cells of the component. *)
Record Session : Type := mkSession {
  history : list EditorState;
  historyIndex : Z;
  currentState : EditorState
}.

(** The reset-on-open effect. *)
Definition openSession : Session :=
  {| history := [initialState];
     historyIndex := 0;
     currentState := initialState |}.

(** The effect on [[history, historyIndex]]:
    [setCurrentState(history[historyIndex])].  It runs after a render in
    which one of the two changed. *)
Definition syncCurrentState (s : Session) : option Session :=
  match js_index (history s) (historyIndex s) with
  | Some st =>
      Some {| history := history s;
              historyIndex := historyIndex s;
              currentState := st |}
  | None => None
  end.

(** [pushToHistory]; the new array makes the sync effect run. *)
Definition pushToHistory (s : Session) (newState : EditorState) : option Session :=
  let newHistory := js_slice0 (history s) (historyIndex s + 1) ++ [newState] in
  syncCurrentState
    {| history := newHistory;
       historyIndex := Z.of_nat (length newHistory) - 1;
       currentState := currentState s |}.

(** [handleUndo]: below the guard nothing is set, so nothing re-renders and
    no effect runs. *)
Definition handleUndo (s : Session) : option Session :=
  if 0 <? historyIndex s then
    syncCurrentState
      {| history := history s;
         historyIndex := historyIndex s - 1;
         currentState := currentState s |}
  else Some s.

(** [handleRedo] *)
Definition handleRedo (s : Session) : option Session :=
  if historyIndex s <? Z.of_nat (length (history s)) - 1 then
    syncCurrentState
      {| history := history s;
         historyIndex := historyIndex s + 1;
         currentState := currentState s |}
  else Some s.

(** [updateCurrentState]: only the working state is set; [history] and
    [historyIndex] keep their identity, so the sync effect does not run. *)
Definition updateCurrentState (s : Session) (partial : PartialState) : Session :=
  {| history := history s;
     historyIndex := historyIndex s;
     currentState := spread (currentState s) partial |}.

(** [commitChange] *)
Definition commitChange (s : Session) (partial : PartialState) : option Session :=
  let newState := spread (currentState s) partial in
  pushToHistory
    {| history := history s;
       historyIndex := historyIndex s;
       currentState := newState |}
    newState.

(** The user-level operations and their runs. *)
Inductive Op : Type :=
  | Push (st : EditorState)
  | Commit (partial : PartialState)
  | LiveUpdate (partial : PartialState)
  | Undo
  | Redo.

Definition step (s : Session) (o : Op) : option Session :=
  match o with
  | Push st => pushToHistory s st
  | Commit p => commitChange s p
  | LiveUpdate p => Some (updateCurrentState s p)
  | Undo => handleUndo s
  | Redo => handleRedo s
  end.

Fixpoint run (s : Session) (ops : list Op) : option Session :=
  match ops with
  | [] => Some s
  | o :: ops' =>
      match step s o with
      | Some s' => run s' ops'
      | None => None
      end
  end.

(** States reachable from session open. *)
Inductive reachable : Session -> Prop :=
  | reach_open : reachable openSession
  | reach_step s o s' : reachable s -> step s o = Some s' -> reachable s'.

(** ** The draw effect *)

(** The loaded [HTMLImageElement], reduced to what the draw effect reads. *)
Record Image : Type := mkImage {
  naturalWidth : Z;
  naturalHeight : Z
}.

(** [s.split(sep)] for a one-character separator. *)
Fixpoint split_on (sep : ascii) (s : string) : list string :=
  match s with
  | EmptyString => [EmptyString]
  | String c rest =>
      if Ascii.eqb c sep then EmptyString :: split_on sep rest
      else
        match split_on sep rest with
        | piece :: pieces => String c piece :: pieces
        | [] => [String c EmptyString]
        end
  end.

Definition digit_value (c : ascii) : option Z :=
  let n := Z.of_nat (nat_of_ascii c) in
  if (48 <=? n) && (n <=? 57) then Some (n - 48) else None.

Fixpoint digits_value (acc : Z) (s : string) : option Z :=
  match s with
  | EmptyString => Some acc
  | String c rest =>
      match digit_value c with
      | Some d => digits_value (10 * acc + d) rest
      | None => None
      end
  end.

(** [Number(s)] on the strings the crop ratios are made of: a non-empty run
    of decimal digits is its value; [None] stands for [NaN], which is what
    [Number] gives on a piece such as ["original"]. *)
Definition Number (s : string) : option Z :=
  match s with
  | EmptyString => None
  | _ => digits_value 0 s
  end.

(** The source rectangle of the crop. *)
Record Crop : Type := mkCrop {
  cropW : Q;
  cropH : Q;
  cropX : Q;
  cropY : Q
}.

(** Step 1 of the draw effect, "Calculate Dimensions based on Crop Ratio".
    [None]: a component of the ratio is not a number. *)
Definition cropWindow (image : Image) (c : CropRatio) : option Crop :=
  let srcW := inject_Z (naturalWidth image) in
  let srcH := inject_Z (naturalHeight image) in
  match c with
  | original => Some {| cropW := srcW; cropH := srcH; cropX := 0; cropY := 0 |}
  | _ =>
      match map Number (split_on ":" (cropRatio_string c)) with
      | Some rw :: Some rh :: _ =>
          let targetRatio := (inject_Z rw / inject_Z rh)%Q in
          let srcRatio := (srcW / srcH)%Q in
          match (srcRatio ?= targetRatio)%Q with
          | Gt =>
              let w := (srcH * targetRatio)%Q in
              Some {| cropW := w; cropH := srcH;
                      cropX := ((srcW - w) / 2)%Q; cropY := 0 |}
          | _ =>
              let h := (srcW / targetRatio)%Q in
              Some {| cropW := srcW; cropH := h;
                      cropX := 0; cropY := ((srcH - h) / 2)%Q |}
          end
      | _ => None
      end
  end.

(** [rotation % 180 !== 0]; the remainder of JavaScript takes the sign of
    the dividend. *)
Definition isRotated (rot : Z) : bool := negb (Z.rem rot 180 =? 0).

(** Step 2, the size given to the canvas. *)
Definition canvasSize (crop : Crop) (rot : Z) : Q * Q :=
  if isRotated rot then (cropH crop, cropW crop) else (cropW crop, cropH crop).

(** [`${n}`] for an integer. *)
Definition showZ (n : Z) : string := NilZero.string_of_int (Z.to_int n).

(** Step 3, "Apply Filters & Adjustments": the value given to [ctx.filter]. *)
Definition filterString (st : EditorState) : string :=
  let base :=
    ("brightness(" ++ showZ (brightness st) ++ "%) contrast("
       ++ showZ (contrast st) ++ "%) saturate("
       ++ showZ (saturation st) ++ "%)")%string in
  let p := filterPreset st in
  if String.eqb p "grayscale" then (base ++ " grayscale(100%)")%string
  else if String.eqb p "sepia" then (base ++ " sepia(100%)")%string
  else if String.eqb p "invert" then (base ++ " invert(100%)")%string
  else if String.eqb p "warm" then (base ++ " sepia(30%) saturate(140%)")%string
  else if String.eqb p "cool" then
    (base ++ " hue-rotate(180deg) opacity(90%)")%string
  else if String.eqb p "vintage" then
    (base ++ " sepia(40%) saturate(150%) contrast(90%) brightness(110%)")%string
  else if String.eqb p "bw-film" then
    (base ++ " grayscale(100%) contrast(120%) brightness(90%)")%string
  else if String.eqb p "neo-noir" then
    (base ++ " contrast(140%) brightness(80%) saturate(80%)")%string
  else if String.eqb p "polaroid" then
    (base ++ " contrast(80%) brightness(120%) saturate(120%) sepia(20%)")%string
  else if String.eqb p "dramatic" then
    (base ++ " contrast(150%) brightness(90%)")%string
  else base.

(** The array [filters] behind the filter buttons. *)
Definition filters : list string :=
  ["none"; "grayscale"; "sepia"; "invert";
   "warm"; "cool"; "vintage"; "bw-film";
   "neo-noir"; "polaroid"; "dramatic"].

(** What the draw effect leaves on the canvas: its size, the filter and the
    transform in force, and the arguments of the one [drawImage] call.
    [rotateDeg] is the [d] of [ctx.rotate(d * Math.PI / 180)]. *)
Record Canvas : Type := mkCanvas {
  width : Q;
  height : Q;
  filter : string;
  translateX : Q;
  translateY : Q;
  rotateDeg : Z;
  src_rect : Q * Q * Q * Q;
  dst_rect : Q * Q * Q * Q
}.

(** The body of the draw effect for a loaded image. *)
Definition draw (image : Image) (st : EditorState) : option Canvas :=
  match cropWindow image (cropRatio st) with
  | Some crop =>
      let '(w, h) := canvasSize crop (rotation st) in
      let drawW := cropW crop in
      let drawH := cropH crop in
      Some {| width := w;
              height := h;
              filter := filterString st;
              translateX := (w / 2)%Q;
              translateY := (h / 2)%Q;
              rotateDeg := rotation st;
              src_rect := (cropX crop, cropY crop, cropW crop, cropH crop);
              dst_rect := ((- drawW / 2)%Q, (- drawH / 2)%Q, drawW, drawH) |}
  | None => None
  end.

(** The draw effect has [currentState] among its dependencies: after every
    render the canvas shows the working state. *)
Definition drawEffect (image : Image) (s : Session) : option Canvas :=
  draw image (currentState s).

(** The result of [canvas.toDataURL(type, quality)]. *)
Record DataURL : Type := mkDataURL {
  mimeType : string;
  quality : Q;
  pixels : Canvas
}.

(** [handleSave]: the canvas as the draw effect left it, encoded. *)
Definition handleSave (image : Image) (s : Session) : option DataURL :=
  match drawEffect image s with
  | Some canvas =>
      Some {| mimeType := "image/jpeg"; quality := (92 # 100)%Q; pixels := canvas |}
  | None => None
  end.

(** ** The filter list as data *)

(** One function of a CSS filter list. *)
Inductive FilterFn : Type :=
  | fn_brightness (pct : Z)
  | fn_contrast (pct : Z)
  | fn_saturate (pct : Z)
  | fn_grayscale (pct : Z)
  | fn_sepia (pct : Z)
  | fn_invert (pct : Z)
  | fn_opacity (pct : Z)
  | fn_hue_rotate (deg : Z).

Definition css_fn (f : FilterFn) : string :=
  match f with
  | fn_brightness n => "brightness(" ++ showZ n ++ "%)"
  | fn_contrast n => "contrast(" ++ showZ n ++ "%)"
  | fn_saturate n => "saturate(" ++ showZ n ++ "%)"
  | fn_grayscale n => "grayscale(" ++ showZ n ++ "%)"
  | fn_sepia n => "sepia(" ++ showZ n ++ "%)"
  | fn_invert n => "invert(" ++ showZ n ++ "%)"
  | fn_opacity n => "opacity(" ++ showZ n ++ "%)"
  | fn_hue_rotate n => "hue-rotate(" ++ showZ n ++ "deg)"
  end%string.

(** A filter list as the value of the CSS [filter] property. *)
Definition css_chain (fs : list FilterFn) : string :=
  String.concat " " (map css_fn fs).

(** The base tonal stage of a state. *)
Definition baseStage (st : EditorState) : list FilterFn :=
  [fn_brightness (brightness st); fn_contrast (contrast st);
   fn_saturate (saturation st)].

(** The preset stage as a table from preset name to secondary operations;
    the names are those of the cases of the [switch]. *)
Definition presetTable : list (string * list FilterFn) :=
  [("grayscale", [fn_grayscale 100]);
   ("sepia", [fn_sepia 100]);
   ("invert", [fn_invert 100]);
   ("warm", [fn_sepia 30; fn_saturate 140]);
   ("cool", [fn_hue_rotate 180; fn_opacity 90]);
   ("vintage", [fn_sepia 40; fn_saturate 150; fn_contrast 90; fn_brightness 110]);
   ("bw-film", [fn_grayscale 100; fn_contrast 120; fn_brightness 90]);
   ("neo-noir", [fn_contrast 140; fn_brightness 80; fn_saturate 80]);
   ("polaroid", [fn_contrast 80; fn_brightness 120; fn_saturate 120; fn_sepia 20]);
   ("dramatic", [fn_contrast 150; fn_brightness 90])].

Fixpoint assoc_string {B : Type} (k : string) (t : list (string * B)) : option B :=
  match t with
  | [] => None
  | (k', v) :: t' => if String.eqb k k' then Some v else assoc_string k t'
  end.

Definition presetStage (p : string) : list FilterFn :=
  default [] (assoc_string p presetTable).

(** ** The reference geometry *)

(** The two components of each ratio, as the specification names them. *)
Definition ratioComponents (c : CropRatio) : option (Z * Z) :=
  match c with
  | original => None
  | ratio_1_1 => Some (1, 1)
  | ratio_4_3 => Some (4, 3)
  | ratio_16_9 => Some (16, 9)
  end.

(** The GeometryResolver of the specification, in its words: the crop window
    of steps 1 and 2 and the output bounding box of step 3. *)
Definition GeometryResolver (W H : Z) (c : CropRatio) (rotationDegrees : Z)
  : Crop * (Q * Q) :=
  let Wq := inject_Z W in
  let Hq := inject_Z H in
  let crop :=
    match ratioComponents c with
    | None => {| cropW := Wq; cropH := Hq; cropX := 0; cropY := 0 |}
    | Some (rw, rh) =>
        let r := (inject_Z rw / inject_Z rh)%Q in
        if Qlt_le_dec r (Wq / Hq) then
          {| cropW := (Hq * r)%Q; cropH := Hq;
             cropX := ((Wq - Hq * r) / 2)%Q; cropY := 0 |}
        else
          {| cropW := Wq; cropH := (Wq / r)%Q;
             cropX := 0; cropY := ((Hq - Wq / r) / 2)%Q |}
    end in
  (crop,
   if Z.eq_dec (rotationDegrees mod 180) 0
   then (cropW crop, cropH crop)
   else (cropH crop, cropW crop)).

(** ** Invariants of a session *)

(** The cursor points into the history, whose first entry is the default
    state. *)
Definition history_ok (s : Session) : Prop :=
  0 <= historyIndex s <= Z.of_nat (length (history s)) - 1
  /\ history s !! 0%nat = Some initialState.

(** The working state is the snapshot under the cursor: no live edit is
    pending. *)
Definition synced (s : Session) : Prop :=
  js_index (history s) (historyIndex s) = Some (currentState s).

(** ** Sample inputs *)

(** Sample partial updates: [{brightness: 120}], [{contrast: 80}],
    [{saturation: 500}] and [{filterPreset: 'hdr'}]. *)
Definition brightness_120 : PartialState :=
  mkPartial (Some 120) None None None None None.
Definition contrast_80 : PartialState :=
  mkPartial None (Some 80) None None None None.
Definition saturation_500 : PartialState :=
  mkPartial None None (Some 500) None None None.
Definition preset_hdr : PartialState :=
  mkPartial None None None None None (Some "hdr").

(** A fresh session in which the brightness slider has been moved to 120 and
    not released. *)
Definition dragging : Session := updateCurrentState openSession brightness_120.

(** ** Controls of the editor *)

(** [disabled={historyIndex <= 0}] on the undo button. *)
Definition undoDisabled (s : Session) : bool := historyIndex s <=? 0.

(** [disabled={historyIndex >= history.length - 1}] on the redo button. *)
Definition redoDisabled (s : Session) : bool :=
  historyIndex s >=? Z.of_nat (length (history s)) - 1.

(** The rotate button:
    [commitChange({ rotation: currentState.rotation + 90 })]. *)
Definition rotateClick (s : Session) : option Session :=
  commitChange s
    (mkPartial None None None (Some (rotation (currentState s) + 90)) None None).

Fixpoint rotateClicks (n : nat) (s : Session) : option Session :=
  match n with
  | O => Some s
  | S n' =>
      match rotateClick s with
      | Some s' => rotateClicks n' s'
      | None => None
      end
  end.

(** [getPreviewStyle], the classes of the swatch on a filter button. *)
Definition getPreviewStyle (name : string) : string :=
  if String.eqb name "grayscale" then "grayscale"
  else if String.eqb name "sepia" then "sepia"
  else if String.eqb name "invert" then "invert"
  else if String.eqb name "warm" then "sepia saturate-200"
  else if String.eqb name "cool" then "hue-rotate-180 opacity-80"
  else if String.eqb name "vintage" then "sepia-50 contrast-75 brightness-110"
  else if String.eqb name "bw-film" then "grayscale contrast-125 brightness-90"
  else if String.eqb name "neo-noir" then "contrast-150 brightness-75"
  else if String.eqb name "polaroid" then "brightness-125 contrast-75 sepia-25"
  else if String.eqb name "dramatic" then "contrast-150 brightness-90"
  else "".

(** Operations that leave a live edit pending. *)
Definition isLiveUpdate (o : Op) : bool :=
  match o with
  | LiveUpdate _ => true
  | _ => false
  end.

(** * The gallery of [App.tsx] and the generation service

    The types of [types.ts], the state updates of [App.tsx] on the list of
    images and on the prompt, and the pure parts of
    [services/geminiService.ts].  What the browser or the remote model
    supplies is an argument: [trim] is [String.prototype.trim], [fresh] the
    successive results of [crypto.randomUUID()] and [Date.now()], [r] the
    value of [Math.floor(Math.random() * 10)], and a response of the text
    model is [None] when the call threw and [Some text] otherwise, [text]
    being [response.text]. *)

(** [enum AspectRatio] *)
Inductive AspectRatio : Type :=
  | Square
  | Portrait
  | Landscape
  | Wide
  | Tall.

(** [enum StylePreset]; [StyleNone] is the member [None]. *)
Inductive StylePreset : Type :=
  | StyleNone
  | Photorealistic
  | Cinematic
  | Anime
  | DigitalArt
  | OilPainting
  | Cyberpunk
  | Sketch
  | Fantasy
  | ThreeDModel.

(** The string value of each member. *)
Definition stylePreset_string (style : StylePreset) : string :=
  match style with
  | StyleNone => "None"
  | Photorealistic => "Photorealistic"
  | Cinematic => "Cinematic"
  | Anime => "Anime"
  | DigitalArt => "Digital Art"
  | OilPainting => "Oil Painting"
  | Cyberpunk => "Cyberpunk"
  | Sketch => "Sketch"
  | Fantasy => "Fantasy"
  | ThreeDModel => "3D Model"
  end.

(** [status?: 'loading' | 'completed'] *)
Inductive Status : Type :=
  | loading
  | completed.

(** [interface GeneratedImage]; an optional field is an [option]. *)
Record GeneratedImage : Type := mkGeneratedImage {
  gi_id : string;
  gi_url : string;
  gi_prompt : string;
  gi_guidanceScale : option Q;
  gi_aspectRatio : AspectRatio;
  gi_timestamp : Z;
  gi_stylePreset : option string;
  gi_status : option Status;
  gi_progress : option Z;
  gi_statusMessage : option string
}.

(** [ids.includes(x)] *)
Definition includes (ids : list string) (x : string) : bool :=
  existsb (String.eqb x) ids.

(** [handleDeleteImage]: [prev.filter(img => img.id !== id)]. *)
Definition handleDeleteImage (id : string) (prev : list GeneratedImage)
  : list GeneratedImage :=
  List.filter (fun img => negb (String.eqb (gi_id img) id)) prev.

(** [handleSaveEditedImage] on the pair of the images and the image being
    edited; [now] is [Date.now()]. *)
Definition handleSaveEditedImage (now : Z) (newUrl : string)
    (st : list GeneratedImage * option GeneratedImage)
  : list GeneratedImage * option GeneratedImage :=
  match snd st with
  | Some editingImage =>
      (map (fun img =>
              if String.eqb (gi_id img) (gi_id editingImage)
              then {| gi_id := gi_id img;
                      gi_url := newUrl;
                      gi_prompt := gi_prompt img;
                      gi_guidanceScale := gi_guidanceScale img;
                      gi_aspectRatio := gi_aspectRatio img;
                      gi_timestamp := now;
                      gi_stylePreset := gi_stylePreset img;
                      gi_status := gi_status img;
                      gi_progress := gi_progress img;
                      gi_statusMessage := gi_statusMessage img |}
              else img)
           (fst st),
       None)
  | None => st
  end.

(** The placeholders of [handleGenerate], one for each pair of a fresh id
    and the time at which it is built. *)
Definition placeholders (prompt : string) (guidanceScale : Q)
    (aspectRatio : AspectRatio) (stylePreset : StylePreset)
    (fresh : list (string * Z)) : list GeneratedImage :=
  map (fun idt =>
         {| gi_id := fst idt;
            gi_url := "";
            gi_prompt := prompt;
            gi_guidanceScale := Some guidanceScale;
            gi_aspectRatio := aspectRatio;
            gi_timestamp := snd idt;
            gi_stylePreset := Some (stylePreset_string stylePreset);
            gi_status := Some loading;
            gi_progress := Some 0;
            gi_statusMessage := Some "Initializing..." |})
      fresh.

(** [setImages(prev => [...placeholders, ...prev])] *)
Definition generate_prepend (ph prev : list GeneratedImage) : list GeneratedImage :=
  ph ++ prev.

(** The progress callback of [handleGenerate]. *)
Definition generate_progress (placeholderIds : list string) (progress : Z)
    (message : string) (prev : list GeneratedImage) : list GeneratedImage :=
  map (fun img =>
         if includes placeholderIds (gi_id img)
         then {| gi_id := gi_id img;
                 gi_url := gi_url img;
                 gi_prompt := gi_prompt img;
                 gi_guidanceScale := gi_guidanceScale img;
                 gi_aspectRatio := gi_aspectRatio img;
                 gi_timestamp := gi_timestamp img;
                 gi_stylePreset := gi_stylePreset img;
                 gi_status := gi_status img;
                 gi_progress := Some progress;
                 gi_statusMessage := Some message |}
         else img)
      prev.

(** "Replace placeholders with actual generated images". *)
Definition generate_replace (placeholderIds : list string)
    (newImages prev : list GeneratedImage) : list GeneratedImage :=
  newImages
    ++ List.filter (fun img => negb (includes placeholderIds (gi_id img))) prev.

(** "Remove placeholders on error". *)
Definition generate_remove (placeholderIds : list string)
    (prev : list GeneratedImage) : list GeneratedImage :=
  List.filter (fun img => negb (includes placeholderIds (gi_id img))) prev.

(** The progress reports received while the request is pending, applied in
    order. *)
Definition generate_reports (placeholderIds : list string)
    (reports : list (Z * string)) (imgs : list GeneratedImage)
  : list GeneratedImage :=
  fold_left (fun acc pm => generate_progress placeholderIds (fst pm) (snd pm) acc)
    reports imgs.

(** [s.endsWith(',')] *)
Fixpoint endsWith_comma (s : string) : bool :=
  match s with
  | EmptyString => false
  | String c EmptyString => Ascii.eqb c ","
  | String _ rest => endsWith_comma rest
  end.

(** [addSuggestion] on the pair of the prompt and the suggestions. *)
Definition addSuggestion (trim : string -> string) (suggestion : string)
    (st : string * list string) : string * list string :=
  let trimmed := trim (fst st) in
  let prompt :=
    if (String.length trimmed =? 0)%nat then suggestion
    else if endsWith_comma trimmed then (trimmed ++ " " ++ suggestion)%string
    else (trimmed ++ ", " ++ suggestion)%string in
  (prompt, List.filter (fun s => negb (String.eqb s suggestion)) (snd st)).

(** [styleModifiers] *)
Definition styleModifiers (style : StylePreset) : string :=
  match style with
  | StyleNone => ""
  | Photorealistic => ", photorealistic, 8k, highly detailed, realistic lighting, professional photography, sharp focus"
  | Cinematic => ", cinematic lighting, movie scene, dramatic atmosphere, shallow depth of field, 4k, anamorphic lens"
  | Anime => ", anime style, vibrant colors, studio ghibli style, cel shaded, highly detailed, distinct character design"
  | DigitalArt => ", digital art, trending on artstation, concept art, smooth, sharp focus, illustration, highly polished"
  | OilPainting => ", oil painting, textured brushstrokes, canvas texture, classical art style, impasto"
  | Cyberpunk => ", cyberpunk, neon lights, futuristic, high contrast, night city, sci-fi, glowing accents"
  | Sketch => ", sketch, pencil drawing, monochrome, rough lines, charcoal style, hand drawn"
  | Fantasy => ", fantasy art, magical, ethereal, detailed background, epic composition, mythic"
  | ThreeDModel => ", 3d render, blender, octane render, claymation, iso, cute, smooth textures"
  end.

(** [finalPrompt] of [generateImages]: a non-empty modifier is appended, and
    a preset other than [None] without one falls back to a generic suffix. *)
Definition finalPrompt (prompt : string) (stylePreset : StylePreset) : string :=
  let modifier := styleModifiers stylePreset in
  match modifier with
  | String _ _ => (prompt ++ modifier)%string
  | EmptyString =>
      match stylePreset with
      | StyleNone => prompt
      | _ => (prompt ++ ", " ++ stylePreset_string stylePreset
                ++ " style, high quality, detailed")%string
      end
  end.

Definition loadingMessages : list string :=
  ["Initializing AI model...";
   "Interpreting prompt...";
   "Denoising latent space...";
   "Enhancing details...";
   "Applying style filters...";
   "Final polishing..."].

(** "Pick message based on progress thresholds". *)
Definition msgIndex (currentProgress : Z) : Z :=
  let i := 0 in
  let i := if 15 <? currentProgress then 1 else i in
  let i := if 30 <? currentProgress then 2 else i in
  let i := if 50 <? currentProgress then 3 else i in
  let i := if 70 <? currentProgress then 4 else i in
  let i := if 85 <? currentProgress then 5 else i in
  i.

(** One firing of the progress interval: the new [currentProgress] and the
    arguments of [onProgress], if it is called. *)
Definition progressTick (currentProgress r : Z)
  : Z * option (Z * option string) :=
  if currentProgress <? 90 then
    let increment := r + 2 in
    let currentProgress := Z.min (currentProgress + increment) 90 in
    (currentProgress,
     Some (currentProgress, js_index loadingMessages (msgIndex currentProgress)))
  else (currentProgress, None).

(** The value of [currentProgress] after the interval has fired once for
    each random draw. *)
Definition progressAfter (rs : list Z) (currentProgress : Z) : Z :=
  fold_left (fun cp r => fst (progressTick cp r)) rs currentProgress.

(** [getPromptSuggestions] *)
Definition getPromptSuggestions (trim : string -> string)
    (originalPrompt : string) (response : option (option string)) : list string :=
  if (String.length originalPrompt <? 3)%nat then []
  else
    match response with
    | Some responseText =>
        let text :=
          match responseText with
          | Some t => trim t
          | None => ""
          end in
        js_slice0
          (List.filter
             (fun s => (0 <? String.length s)%nat && (String.length s <? 30)%nat)
             (map trim (split_on "," text)))
          8
    | None => []
    end.


(** * Properties *)

Example split_16_9 : map Number (split_on ":" "16:9") = [Some 16; Some 9].
Proof. reflexivity. Qed.

Example filter_default :
  filterString initialState = "brightness(100%) contrast(100%) saturate(100%)".
Proof. reflexivity. Qed.

(** ** Arrays *)

Section Arrays.
Context {A : Type}.
Implicit Types (a : list A) (x : A).

Lemma js_slice0_take a e :
  0 <= e <= Z.of_nat (length a) -> js_slice0 a e = take (Z.to_nat e) a.
Proof.
  intros [Hlo Hhi]. unfold js_slice0.
  destruct (e <? 0) eqn:Hneg; [apply Z.ltb_lt in Hneg; lia |].
  now rewrite Z.min_l.
Qed.

Lemma js_index_lookup a i : 0 <= i -> js_index a i = a !! Z.to_nat i.
Proof.
  intros Hi. unfold js_index.
  destruct (i <? 0) eqn:Hneg; [apply Z.ltb_lt in Hneg; lia | reflexivity].
Qed.

Lemma js_index_in_range a i :
  0 <= i < Z.of_nat (length a) -> exists x, js_index a i = Some x.
Proof.
  intros Hi. rewrite js_index_lookup by lia.
  destruct (lookup_lt_is_Some_2 a (Z.to_nat i)) as [x Hx]; [lia | eauto].
Qed.

Lemma js_index_snoc a x : js_index (a ++ [x]) (Z.of_nat (length a)) = Some x.
Proof.
  rewrite js_index_lookup by lia. rewrite Nat2Z.id.
  now apply list_lookup_middle.
Qed.

Lemma js_index_push a k x :
  0 <= k < Z.of_nat (length a) ->
  js_index (take (Z.to_nat (k + 1)) a ++ [x]) (k + 1) = Some x.
Proof.
  intros Hk. rewrite js_index_lookup by lia.
  apply list_lookup_middle. rewrite length_take. lia.
Qed.
End Arrays.

(** ** The history *)

Lemma pushToHistory_eq s st :
  0 <= historyIndex s <= Z.of_nat (length (history s)) - 1 ->
  pushToHistory s st =
    Some {| history := take (Z.to_nat (historyIndex s + 1)) (history s) ++ [st];
            historyIndex := historyIndex s + 1;
            currentState := st |}.
Proof.
  intros Hi. unfold pushToHistory, syncCurrentState. cbn [history historyIndex].
  rewrite js_slice0_take by lia.
  set (kept := take (Z.to_nat (historyIndex s + 1)) (history s)).
  assert (Hlen : length kept = Z.to_nat (historyIndex s + 1)).
  { subst kept. rewrite length_take. lia. }
  rewrite length_app. cbn [length].
  replace (Z.of_nat (length kept + 1) - 1) with (Z.of_nat (length kept)) by lia.
  rewrite js_index_snoc. do 2 f_equal. lia.
Qed.

Lemma handleUndo_eq s :
  0 < historyIndex s <= Z.of_nat (length (history s)) - 1 ->
  exists st,
    js_index (history s) (historyIndex s - 1) = Some st
    /\ handleUndo s =
         Some {| history := history s;
                 historyIndex := historyIndex s - 1;
                 currentState := st |}.
Proof.
  intros Hi. unfold handleUndo, syncCurrentState. cbn [history historyIndex].
  destruct (0 <? historyIndex s) eqn:Hg; [| apply Z.ltb_ge in Hg; lia].
  destruct (js_index_in_range (history s) (historyIndex s - 1)) as [st Hst];
    [lia |].
  exists st. now rewrite Hst.
Qed.

Lemma handleUndo_first s : historyIndex s <= 0 -> handleUndo s = Some s.
Proof.
  intros Hi. unfold handleUndo.
  destruct (0 <? historyIndex s) eqn:Hg; [apply Z.ltb_lt in Hg; lia | easy].
Qed.

Lemma handleRedo_eq s :
  0 <= historyIndex s < Z.of_nat (length (history s)) - 1 ->
  exists st,
    js_index (history s) (historyIndex s + 1) = Some st
    /\ handleRedo s =
         Some {| history := history s;
                 historyIndex := historyIndex s + 1;
                 currentState := st |}.
Proof.
  intros Hi. unfold handleRedo, syncCurrentState. cbn [history historyIndex].
  destruct (historyIndex s <? Z.of_nat (length (history s)) - 1) eqn:Hg;
    [| apply Z.ltb_ge in Hg; lia].
  destruct (js_index_in_range (history s) (historyIndex s + 1)) as [st Hst];
    [lia |].
  exists st. now rewrite Hst.
Qed.

Lemma handleRedo_last s :
  Z.of_nat (length (history s)) - 1 <= historyIndex s -> handleRedo s = Some s.
Proof.
  intros Hi. unfold handleRedo.
  destruct (historyIndex s <? Z.of_nat (length (history s)) - 1) eqn:Hg;
    [apply Z.ltb_lt in Hg; lia | easy].
Qed.

Lemma history_ok_open : history_ok openSession.
Proof. split; [cbn; lia | reflexivity]. Qed.

Lemma history_ok_push s st s' :
  history_ok s -> pushToHistory s st = Some s' -> history_ok s'.
Proof.
  intros [Hi H0] Hp. rewrite pushToHistory_eq in Hp by exact Hi.
  injection Hp as <-. split; cbn [history historyIndex].
  - rewrite length_app, length_take. cbn [length]. lia.
  - rewrite lookup_app_l by (rewrite length_take; lia).
    rewrite lookup_take_lt by lia. exact H0.
Qed.

Lemma history_ok_step s o s' : history_ok s -> step s o = Some s' -> history_ok s'.
Proof.
  intros Hok Hs. destruct o as [st | p | p | |]; cbn [step] in Hs.
  - eapply history_ok_push; eauto.
  - unfold commitChange in Hs. eapply history_ok_push; [| exact Hs]. exact Hok.
  - injection Hs as <-. exact Hok.
  - destruct Hok as [Hi H0].
    destruct (Z.eq_dec (historyIndex s) 0) as [Hz | Hnz].
    + rewrite handleUndo_first in Hs by lia. injection Hs as <-. now split.
    + destruct (handleUndo_eq s) as (st & _ & Hu); [lia |].
      rewrite Hu in Hs. injection Hs as <-. split; cbn [history historyIndex]; [lia | easy].
  - destruct Hok as [Hi H0].
    destruct (Z.eq_dec (historyIndex s) (Z.of_nat (length (history s)) - 1))
      as [Hz | Hnz].
    + rewrite handleRedo_last in Hs by lia. injection Hs as <-. now split.
    + destruct (handleRedo_eq s) as (st & _ & Hr); [lia |].
      rewrite Hr in Hs. injection Hs as <-. split; cbn [history historyIndex]; [lia | easy].
Qed.

Lemma reachable_history_ok s : reachable s -> history_ok s.
Proof.
  induction 1 as [| s o s' _ IH Hs]; [apply history_ok_open |].
  eapply history_ok_step; eauto.
Qed.

(** No operation fails on a well-formed history. *)
Lemma step_total s o : history_ok s -> exists s', step s o = Some s'.
Proof.
  intros [Hi H0]. destruct o as [st | p | p | |]; cbn [step].
  - rewrite pushToHistory_eq by exact Hi. eauto.
  - unfold commitChange. rewrite pushToHistory_eq by exact Hi. eauto.
  - eauto.
  - destruct (Z.eq_dec (historyIndex s) 0) as [Hz | Hnz].
    + rewrite handleUndo_first by lia. eauto.
    + destruct (handleUndo_eq s) as (st & _ & Hu); [lia | eauto].
  - destruct (Z.eq_dec (historyIndex s) (Z.of_nat (length (history s)) - 1))
      as [Hz | Hnz].
    + rewrite handleRedo_last by lia. eauto.
    + destruct (handleRedo_eq s) as (st & _ & Hr); [lia | eauto].
Qed.

(** C1.  Committing while the cursor is before the last snapshot drops every
    snapshot after the cursor, appends the new state and moves the cursor to
    the new last index; and the scenario of the specification: five commits,
    two undos and a sixth commit leave [default, s1, s2, s3, s6], after which
    redo changes nothing. *)
Theorem commit_discards_redo_branch :
  (forall s st,
      0 <= historyIndex s < Z.of_nat (length (history s)) - 1 ->
      exists s',
        pushToHistory s st = Some s'
        /\ history s' = take (Z.to_nat (historyIndex s) + 1) (history s) ++ [st]
        /\ length (history s') = (Z.to_nat (historyIndex s) + 2)%nat
        /\ (forall i, (i <= Z.to_nat (historyIndex s))%nat ->
                      history s' !! i = history s !! i)
        /\ historyIndex s' = Z.of_nat (length (history s')) - 1
        /\ js_index (history s') (historyIndex s') = Some st
        /\ currentState s' = st)
  /\ (forall s1 s2 s3 s4 s5 s6,
      exists s,
        run openSession
          [Push s1; Push s2; Push s3; Push s4; Push s5; Undo; Undo; Push s6]
          = Some s
        /\ history s = [initialState; s1; s2; s3; s6]
        /\ historyIndex s = 4
        /\ handleRedo s = Some s).
Proof.
  split.
  - intros s st Hi.
    eexists. split; [apply pushToHistory_eq; lia |].
    cbn [history historyIndex currentState].
    replace (Z.to_nat (historyIndex s + 1)) with (Z.to_nat (historyIndex s) + 1)%nat
      by lia.
    assert (Hlen : length (take (Z.to_nat (historyIndex s) + 1) (history s))
                   = (Z.to_nat (historyIndex s) + 1)%nat).
    { rewrite length_take. lia. }
    repeat split.
    + rewrite length_app, Hlen. cbn [length]. lia.
    + intros i Hle. rewrite lookup_app_l by lia. apply lookup_take_lt. lia.
    + rewrite length_app, Hlen. cbn [length]. lia.
    + replace (historyIndex s + 1)
        with (Z.of_nat (length (take (Z.to_nat (historyIndex s) + 1) (history s))))
        by lia.
      apply js_index_snoc.
  - intros s1 s2 s3 s4 s5 s6.
    exists (mkSession [initialState; s1; s2; s3; s6] 4 s6).
    split; [vm_compute; reflexivity |].
    split; [reflexivity |]. split; [reflexivity |].
    apply handleRedo_last. cbn. lia.
Qed.

Lemma commit_discards_redo_branch_witness :
  exists s',
    pushToHistory (mkSession [initialState; initialState; initialState] 0 initialState)
      initialState = Some s'
    /\ history s' = [initialState; initialState].
Proof.
  destruct (proj1 commit_discards_redo_branch
              (mkSession [initialState; initialState; initialState] 0 initialState)
              initialState) as (s' & Hp & Hh & _).
  - cbn. lia.
  - exists s'. split; [exact Hp | exact Hh].
Defined.

(** C2.  In every state reachable from session open the cursor stays within
    [0, length-1], the first snapshot is the default state, undo at the first
    snapshot and redo at the last change nothing, and no operation (undo and
    redo among them) fails. *)
Theorem history_invariant s :
  reachable s ->
  0 <= historyIndex s <= Z.of_nat (length (history s)) - 1
  /\ js_index (history s) 0 = Some initialState
  /\ (historyIndex s = 0 -> handleUndo s = Some s)
  /\ (historyIndex s = Z.of_nat (length (history s)) - 1 -> handleRedo s = Some s)
  /\ (exists s', handleUndo s = Some s' /\ reachable s')
  /\ (exists s', handleRedo s = Some s' /\ reachable s')
  /\ (forall ops, exists s', run s ops = Some s').
Proof.
  intros Hr. pose proof (reachable_history_ok s Hr) as [Hi H0].
  split; [exact Hi |].
  split; [exact H0 |].
  split; [intros Hz; apply handleUndo_first; lia |].
  split; [intros Hz; apply handleRedo_last; lia |].
  split; [| split].
  - destruct (step_total s Undo) as [s' Hs]; [now split |].
    exists s'. split; [exact Hs |]. eapply reach_step; eauto.
  - destruct (step_total s Redo) as [s' Hs]; [now split |].
    exists s'. split; [exact Hs |]. eapply reach_step; eauto.
  - intros ops. revert s Hr Hi H0.
    induction ops as [| o ops IH]; intros s Hr Hi H0; cbn [run]; [eauto |].
    destruct (step_total s o) as [s' Hs]; [now split |].
    rewrite Hs.
    assert (Hr' : reachable s') by (eapply reach_step; eauto).
    destruct (reachable_history_ok s' Hr') as [Hi' H0'].
    now apply IH.
Qed.

Lemma history_invariant_witness :
  0 <= historyIndex openSession <= Z.of_nat (length (history openSession)) - 1
  /\ handleUndo openSession = Some openSession
  /\ handleRedo openSession = Some openSession.
Proof.
  destruct (history_invariant openSession reach_open) as (Hi & _ & Hu & Hre & _).
  split; [exact Hi |].
  split; [apply Hu; reflexivity | apply Hre; reflexivity].
Defined.

(** ** Live edits and commits *)

Lemma commitChange_eq s p :
  0 <= historyIndex s <= Z.of_nat (length (history s)) - 1 ->
  commitChange s p =
    Some {| history := take (Z.to_nat (historyIndex s + 1)) (history s)
                         ++ [spread (currentState s) p];
            historyIndex := historyIndex s + 1;
            currentState := spread (currentState s) p |}.
Proof. intros Hi. unfold commitChange. now rewrite pushToHistory_eq. Qed.

(** C3, as stated, fails.  With the brightness edit pending, a live update of
    the contrast is merged onto the pending state and not onto
    [history[cursor]] (which is the default state), and the undo that follows
    at cursor 0 leaves the live state where it is. *)
Lemma live_update_counterexample :
  reachable dragging
  /\ js_index (history dragging) (historyIndex dragging) = Some initialState
  /\ currentState (updateCurrentState dragging contrast_80)
       <> spread initialState contrast_80
  /\ handleUndo dragging = Some dragging
  /\ currentState dragging <> initialState.
Proof.
  split; [eapply reach_step with (o := LiveUpdate brightness_120);
          [apply reach_open | reflexivity] |].
  repeat split; discriminate.
Qed.

(** C3, amended.  A live update merges the partial onto the working state
    (which is [history[cursor]] when no live edit is pending) and touches
    neither the history nor the cursor; an undo that follows with the cursor
    past 0 discards the live state and shows the previous snapshot, and with
    the cursor at 0 it does nothing. *)
Theorem live_update_frame s p :
  0 <= historyIndex s <= Z.of_nat (length (history s)) - 1 ->
  let s1 := updateCurrentState s p in
  currentState s1 = spread (currentState s) p
  /\ (forall st0, synced s ->
        js_index (history s) (historyIndex s) = Some st0 ->
        currentState s1 = spread st0 p)
  /\ history s1 = history s
  /\ historyIndex s1 = historyIndex s
  /\ (0 < historyIndex s ->
      exists st,
        js_index (history s) (historyIndex s - 1) = Some st
        /\ handleUndo s1 = Some (mkSession (history s) (historyIndex s - 1) st))
  /\ (historyIndex s = 0 -> handleUndo s1 = Some s1).
Proof.
  intros Hi s1. split; [reflexivity |]. split.
  { intros st0 Hsync Hst0. unfold synced in Hsync. rewrite Hst0 in Hsync.
    injection Hsync as ->. reflexivity. }
  split; [reflexivity |]. split; [reflexivity |]. split.
  - intros Hpos. destruct (handleUndo_eq s1) as (st & Hst & Hu).
    + subst s1. cbn [updateCurrentState history historyIndex]. lia.
    + exists st. split; [exact Hst | exact Hu].
  - intros Hz. apply handleUndo_first. subst s1. cbn. lia.
Qed.

Lemma live_update_frame_witness :
  history (updateCurrentState openSession brightness_120) = [initialState]
  /\ handleUndo (updateCurrentState openSession brightness_120)
       = Some (updateCurrentState openSession brightness_120).
Proof.
  destruct (live_update_frame openSession brightness_120) as (_ & _ & Hh & _ & _ & Hu).
  - cbn. lia.
  - split; [exact Hh | apply Hu; reflexivity].
Defined.

(** C4, as stated, fails.  Releasing the slider ([commitChange()] with no
    partial) while the brightness edit is pending persists the pending state,
    not [history[cursor]] merged with the empty partial. *)
Lemma commit_counterexample :
  js_index (history dragging) (historyIndex dragging) = Some initialState
  /\ commitChange dragging emptyPartial
       = Some (mkSession [initialState; spread initialState brightness_120] 1
                 (spread initialState brightness_120))
  /\ spread initialState brightness_120 <> spread initialState emptyPartial.
Proof. repeat split; discriminate. Qed.

(** C4, amended.  [commitChange] merges the partial onto the working state,
    pending live edit included; it appends the result after the snapshots up
    to the cursor, moves the cursor to it, and leaves the working state equal
    to the snapshot under the cursor, from which the canvas is drawn.  When
    no live edit is pending this is the merge onto [history[cursor]]. *)
Theorem commit_persists_working_state s p :
  0 <= historyIndex s <= Z.of_nat (length (history s)) - 1 ->
  exists s',
    commitChange s p = Some s'
    /\ history s' = take (Z.to_nat (historyIndex s) + 1) (history s)
                      ++ [spread (currentState s) p]
    /\ historyIndex s' = Z.of_nat (length (history s')) - 1
    /\ js_index (history s') (historyIndex s') = Some (spread (currentState s) p)
    /\ currentState s' = spread (currentState s) p
    /\ (forall image, drawEffect image s' = draw image (spread (currentState s) p))
    /\ (forall st0, synced s ->
          js_index (history s) (historyIndex s) = Some st0 ->
          currentState s' = spread st0 p).
Proof.
  intros Hi. eexists. split; [apply commitChange_eq; exact Hi |].
  cbn [history historyIndex currentState].
  replace (Z.to_nat (historyIndex s + 1)) with (Z.to_nat (historyIndex s) + 1)%nat
    by lia.
  assert (Hlen : length (take (Z.to_nat (historyIndex s) + 1) (history s))
                 = (Z.to_nat (historyIndex s) + 1)%nat).
  { rewrite length_take. lia. }
  split; [reflexivity |]. split.
  { rewrite length_app, Hlen. cbn [length]. lia. }
  split.
  { replace (historyIndex s + 1)
      with (Z.of_nat (length (take (Z.to_nat (historyIndex s) + 1) (history s))))
      by lia.
    apply js_index_snoc. }
  split; [reflexivity |]. split; [reflexivity |].
  intros st0 Hsync Hst0. unfold synced in Hsync. rewrite Hst0 in Hsync.
  injection Hsync as ->. reflexivity.
Qed.

Lemma commit_persists_working_state_witness :
  exists s',
    commitChange dragging emptyPartial = Some s'
    /\ currentState s' = spread initialState brightness_120.
Proof.
  destruct (commit_persists_working_state dragging emptyPartial)
    as (s' & Hc & _ & _ & _ & Hcur & _).
  - cbn. lia.
  - exists s'. split; [exact Hc | exact Hcur].
Defined.

(** ** The filter chain *)

Lemma string_app_assoc (a b c : string) :
  ((a ++ b) ++ c = a ++ (b ++ c))%string.
Proof. induction a as [| x a IH]; cbn; [reflexivity | now rewrite IH]. Qed.

Lemma filterString_chain st :
  filterString st = css_chain (baseStage st ++ presetStage (filterPreset st)).
Proof.
  unfold filterString, presetStage, presetTable, assoc_string.
  repeat (destruct (String.eqb (filterPreset st) _);
          [unfold css_chain, baseStage; cbn [map app String.concat css_fn default];
           repeat rewrite string_app_assoc; reflexivity |]).
  unfold css_chain, baseStage; cbn [map app String.concat css_fn default].
  repeat rewrite string_app_assoc; reflexivity.
Qed.

(** A preset outside the cases of the [switch] adds nothing. *)
Lemma eqb_outside p q l : ~ In p (q :: l) -> String.eqb p q = false /\ ~ In p l.
Proof.
  intros Hp. apply not_in_cons in Hp as [Hne Hp].
  split; [now apply String.eqb_neq | exact Hp].
Qed.

Lemma presetStage_unknown p : ~ In p filters -> presetStage p = [].
Proof.
  intros Hp. unfold filters in Hp.
  apply not_in_cons in Hp as [_ Hp].
  unfold presetStage, presetTable. cbn [assoc_string].
  repeat (apply eqb_outside in Hp as [-> Hp]).
  reflexivity.
Qed.

(** The components the draw effect reads off each crop ratio. *)
Lemma ratio_parts :
  map Number (split_on ":" (cropRatio_string ratio_1_1)) = [Some 1; Some 1]
  /\ map Number (split_on ":" (cropRatio_string ratio_4_3)) = [Some 4; Some 3]
  /\ map Number (split_on ":" (cropRatio_string ratio_16_9)) = [Some 16; Some 9].
Proof. repeat split. Qed.

Lemma cropWindow_total image c : exists crop, cropWindow image c = Some crop.
Proof.
  destruct ratio_parts as (H11 & H43 & H169).
  destruct c; unfold cropWindow; [eauto | rewrite H11 | rewrite H43 | rewrite H169];
    cbv zeta; destruct (_ ?= _)%Q; eauto.
Qed.

Lemma draw_total image st :
  exists canvas, draw image st = Some canvas /\ filter canvas = filterString st.
Proof.
  unfold draw. destruct (cropWindow_total image (cropRatio st)) as [crop ->].
  destruct (canvasSize crop (rotation st)) as [w h]. eauto.
Qed.

(** C9.  The filter list given to the canvas is the base stage, brightness,
    contrast, saturation in this order, followed by the operations the table
    gives for the preset name; the preset none adds nothing and each of the
    ten named presets adds its own non-empty list after the base stage. *)
Theorem filter_chain_base_first st :
  filterString st =
    css_chain ([fn_brightness (brightness st); fn_contrast (contrast st);
                fn_saturate (saturation st)]
               ++ presetStage (filterPreset st))
  /\ filterString st =
       (css_chain (baseStage st)
        ++ match presetStage (filterPreset st) with
           | [] => ""
           | fs => " " ++ css_chain fs
           end)%string
  /\ presetStage "none" = []
  /\ (forall p, In p filters -> p = "none" \/ presetStage p <> [])
  /\ (exists suffix, forall st',
        filterPreset st' = filterPreset st ->
        filterString st' = (css_chain (baseStage st') ++ suffix)%string).
Proof.
  assert (Hsuffix : forall st0,
             filterString st0 =
               (css_chain (baseStage st0)
                ++ match presetStage (filterPreset st0) with
                   | [] => ""
                   | fs => " " ++ css_chain fs
                   end)%string).
  { clear st. intros st. unfold filterString, presetStage, presetTable, assoc_string.
    repeat (destruct (String.eqb (filterPreset st) _);
            [unfold css_chain, baseStage;
             cbn [map app String.concat css_fn default];
             repeat rewrite string_app_assoc; reflexivity |]).
    unfold css_chain, baseStage; cbn [map app String.concat css_fn default].
    repeat rewrite string_app_assoc; reflexivity. }
  split; [apply filterString_chain |].
  split; [apply Hsuffix |].
  split; [reflexivity |]. split.
  - intros p Hin. unfold filters in Hin. cbn [In] in Hin.
    repeat (destruct Hin as [<- | Hin]; [(now left) || (right; discriminate) |]).
    contradiction.
  - eexists. intros st' Hp. rewrite Hsuffix, Hp. reflexivity.
Qed.

Lemma filter_chain_base_first_witness :
  filterString (mkEditorState 120 90 80 0 original "warm")
    = "brightness(120%) contrast(90%) saturate(80%) sepia(30%) saturate(140%)"
  /\ presetStage "warm" <> [].
Proof.
  destruct (filter_chain_base_first (mkEditorState 120 90 80 0 original "warm"))
    as (Hchain & _ & _ & Hnamed & _).
  split; [rewrite Hchain; reflexivity |].
  destruct (Hnamed "warm") as [Hnone | Hne].
  - unfold filters. cbn [In]. tauto.
  - discriminate Hnone.
  - exact Hne.
Defined.

(** ** Export *)

(** C5, as stated, fails.  With the brightness edit pending, the export of a
    1000x500 image carries the pending brightness of 120, while
    [history[cursor]] is the default state and draws with brightness 100. *)
Lemma export_counterexample :
  js_index (history dragging) (historyIndex dragging) = Some initialState
  /\ exists d c0,
       handleSave (mkImage 1000 500) dragging = Some d
       /\ draw (mkImage 1000 500) initialState = Some c0
       /\ filter (pixels d) = "brightness(120%) contrast(100%) saturate(100%)"
       /\ filter c0 = "brightness(100%) contrast(100%) saturate(100%)"
       /\ pixels d <> c0.
Proof.
  split; [reflexivity |]. do 2 eexists.
  split; [reflexivity |]. split; [reflexivity |].
  split; [reflexivity |]. split; [reflexivity |]. discriminate.
Qed.

(** C5, amended.  The export encodes the canvas as drawn from the working
    state, pending live edit included, as JPEG at quality 0.92; when no live
    edit is pending that canvas is the rendering of [history[cursor]]. *)
Theorem export_encodes_working_state image s :
  0 < naturalWidth image ->
  0 < naturalHeight image ->
  exists canvas,
    draw image (currentState s) = Some canvas
    /\ handleSave image s =
         Some {| mimeType := "image/jpeg"; quality := (92 # 100)%Q;
                 pixels := canvas |}
    /\ filter canvas = filterString (currentState s)
    /\ (forall st0, synced s ->
          js_index (history s) (historyIndex s) = Some st0 ->
          draw image st0 = Some canvas).
Proof.
  intros _ _. destruct (draw_total image (currentState s)) as (canvas & Hd & Hf).
  exists canvas. split; [exact Hd |]. split.
  { unfold handleSave, drawEffect. now rewrite Hd. }
  split; [exact Hf |].
  intros st0 Hsync Hst0. unfold synced in Hsync. rewrite Hst0 in Hsync.
  injection Hsync as ->. exact Hd.
Qed.

Lemma export_encodes_working_state_witness :
  exists canvas,
    handleSave (mkImage 1000 500) dragging =
      Some {| mimeType := "image/jpeg"; quality := (92 # 100)%Q; pixels := canvas |}
    /\ filter canvas = "brightness(120%) contrast(100%) saturate(100%)".
Proof.
  destruct (export_encodes_working_state (mkImage 1000 500) dragging)
    as (canvas & _ & Hs & Hf & _).
  - reflexivity.
  - reflexivity.
  - exists canvas. split; [exact Hs | exact Hf].
Defined.

(** ** Values outside the ranges of the controls *)

(** C6, as stated, fails.  A live update of the saturation to 500 is stored
    and rendered as 500, not as 200. *)
Lemma clamping_counterexample :
  saturation (currentState (updateCurrentState openSession saturation_500)) = 500
  /\ filterString (currentState (updateCurrentState openSession saturation_500))
     = "brightness(100%) contrast(100%) saturate(500%)"
  /\ saturation (currentState (updateCurrentState openSession saturation_500)) <> 200.
Proof. repeat split; discriminate. Qed.

(** C6, amended.  The brightness, contrast and saturation of a partial are
    stored as given, by a live update and by a commit alike, and are rendered
    as given in the base stage of the filter: nothing is clamped and nothing
    is rejected. *)
Theorem values_stored_unclamped s p :
  0 <= historyIndex s <= Z.of_nat (length (history s)) - 1 ->
  let live := currentState (updateCurrentState s p) in
  (forall b, p_brightness p = Some b -> brightness live = b)
  /\ (forall c, p_contrast p = Some c -> contrast live = c)
  /\ (forall v, p_saturation p = Some v -> saturation live = v)
  /\ filterString live =
       css_chain ([fn_brightness (brightness live); fn_contrast (contrast live);
                   fn_saturate (saturation live)]
                  ++ presetStage (filterPreset live))
  /\ exists s',
       commitChange s p = Some s'
       /\ js_index (history s') (historyIndex s') = Some live
       /\ currentState s' = live.
Proof.
  intros Hi live. subst live.
  cbn [updateCurrentState currentState spread brightness contrast saturation].
  split; [intros b ->; reflexivity |].
  split; [intros c ->; reflexivity |].
  split; [intros v ->; reflexivity |].
  split; [apply (filterString_chain (spread (currentState s) p)) |].
  eexists. split; [apply commitChange_eq; exact Hi |].
  cbn [history historyIndex currentState]. split; [| reflexivity].
  apply js_index_push. lia.
Qed.

Lemma values_stored_unclamped_witness :
  saturation (currentState (updateCurrentState openSession saturation_500)) = 500.
Proof.
  destruct (values_stored_unclamped openSession saturation_500) as (_ & _ & Hv & _).
  - cbn. lia.
  - apply Hv. reflexivity.
Defined.

(** ** Values outside the enumerations *)

(** C7, as stated, fails.  The preset name hdr is not one of the eleven, yet
    committing it on a fresh session succeeds, records it in the history and
    makes it the rendered state. *)
Lemma unknown_preset_counterexample :
  ~ In "hdr" filters
  /\ exists s',
       commitChange openSession preset_hdr = Some s'
       /\ history s' = [initialState; mkEditorState 100 100 100 0 original "hdr"]
       /\ historyIndex s' = 1
       /\ filterPreset (currentState s') = "hdr"
       /\ drawEffect (mkImage 1000 500) s'
            = draw (mkImage 1000 500) (mkEditorState 100 100 100 0 original "hdr").
Proof.
  split.
  - unfold filters. cbn [In]. intros H.
    repeat (destruct H as [H | H]; [discriminate H |]). exact H.
  - eexists. repeat split.
Qed.

(** C7, amended.  An update whose preset name is outside the eleven names is
    accepted like any other: a live update stores it, a commit records it in
    the history and succeeds, and it is rendered with the base stage alone.
    A crop ratio is one of the four values by its type. *)
Theorem unknown_preset_accepted s p f :
  0 <= historyIndex s <= Z.of_nat (length (history s)) - 1 ->
  p_filterPreset p = Some f ->
  ~ In f filters ->
  filterPreset (currentState (updateCurrentState s p)) = f
  /\ (exists s',
        commitChange s p = Some s'
        /\ js_index (history s') (historyIndex s') = Some (currentState s')
        /\ filterPreset (currentState s') = f
        /\ filterString (currentState s') = css_chain (baseStage (currentState s')))
  /\ (forall c : CropRatio,
        In (cropRatio_string c) ["original"; "1:1"; "4:3"; "16:9"]).
Proof.
  intros Hi Hp Hf.
  assert (Hpre : filterPreset (spread (currentState s) p) = f).
  { cbn [spread filterPreset]. now rewrite Hp. }
  split; [exact Hpre |]. split.
  - eexists. split; [apply commitChange_eq; exact Hi |].
    cbn [history historyIndex currentState]. split; [| split].
    + apply js_index_push. lia.
    + exact Hpre.
    + rewrite filterString_chain, Hpre, presetStage_unknown by exact Hf.
      now rewrite app_nil_r.
  - intros c. destruct c; cbn; tauto.
Qed.

Lemma unknown_preset_accepted_witness :
  filterPreset (currentState (updateCurrentState openSession preset_hdr)) = "hdr".
Proof.
  refine (proj1 (unknown_preset_accepted openSession preset_hdr "hdr" _ _ _)).
  - cbn. lia.
  - reflexivity.
  - unfold filters. cbn [In]. intros H.
    repeat (destruct H as [H | H]; [discriminate H |]). exact H.
Defined.

(** ** Geometry *)

Section Rationals.
Local Open Scope Q_scope.

Lemma Qdiv_gt_mult (a b r : Q) : 0 < b -> r < a / b -> b * r < a.
Proof.
  intros Hb Hr. apply (Qmult_lt_r _ _ b Hb) in Hr.
  assert (E : a / b * b == a) by (field; lra).
  rewrite E in Hr. lra.
Qed.

Lemma Qdiv_le_mult (a b r : Q) : 0 < b -> a / b <= r -> a <= b * r.
Proof.
  intros Hb Hr. apply (Qmult_le_r _ _ b Hb) in Hr.
  assert (E : a / b * b == a) by (field; lra).
  rewrite E in Hr. lra.
Qed.

(** The source is wider than the target: the width is cut. *)
Lemma wide_crop_inside (W H r : Q) :
  0 < W -> 0 < H -> 0 < r -> r < W / H ->
  0 <= (W - H * r) / 2
  /\ (W - H * r) / 2 + H * r <= W
  /\ 0 < H * r
  /\ H * r / H == r.
Proof.
  intros HW HH Hr Hlt. apply Qdiv_gt_mult in Hlt; [| exact HH].
  assert (Hpos : 0 < H * r) by (apply Qmult_lt_0_compat; assumption).
  repeat split.
  - apply Qle_shift_div_l; lra.
  - assert (E : (W - H * r) / 2 == (1 # 2) * W - (1 # 2) * (H * r)) by field.
    rewrite E. lra.
  - exact Hpos.
  - field. lra.
Qed.

(** The source is at most as wide as the target: the height is cut. *)
Lemma tall_crop_inside (W H r : Q) :
  0 < W -> 0 < H -> 0 < r -> W / H <= r ->
  0 <= (H - W / r) / 2
  /\ (H - W / r) / 2 + W / r <= H
  /\ 0 < W / r
  /\ W / (W / r) == r.
Proof.
  intros HW HH Hr Hle. apply Qdiv_le_mult in Hle; [| exact HH].
  assert (Hpos : 0 < W / r) by (apply Qlt_shift_div_l; lra).
  assert (Hh : W / r <= H) by (apply Qle_shift_div_r; [exact Hr | lra]).
  repeat split.
  - apply Qle_shift_div_l; lra.
  - assert (E : (H - W / r) / 2 == (1 # 2) * H - (1 # 2) * (W / r))
      by (field; lra).
    rewrite E. lra.
  - exact Hpos.
  - field. split; lra.
Qed.
End Rationals.

Lemma isRotated_mod rot : isRotated rot = negb (rot mod 180 =? 0).
Proof.
  unfold isRotated. f_equal.
  destruct (Z.eqb_spec (Z.rem rot 180) 0) as [Hr | Hr];
    destruct (Z.eqb_spec (rot mod 180) 0) as [Hm | Hm]; try reflexivity; exfalso.
  - apply Hm. apply Z.mod_divide; [lia |]. apply Z.rem_divide in Hr; [exact Hr | lia].
  - apply Hr. apply Z.rem_divide; [lia |]. apply Z.mod_divide in Hm; [exact Hm | lia].
Qed.

Lemma cropWindow_ratio image c rw rh :
  ratioComponents c = Some (rw, rh) ->
  cropWindow image c =
    let srcW := inject_Z (naturalWidth image) in
    let srcH := inject_Z (naturalHeight image) in
    let targetRatio := (inject_Z rw / inject_Z rh)%Q in
    match (srcW / srcH ?= targetRatio)%Q with
    | Gt => Some {| cropW := (srcH * targetRatio)%Q; cropH := srcH;
                    cropX := ((srcW - srcH * targetRatio) / 2)%Q; cropY := 0 |}
    | _ => Some {| cropW := srcW; cropH := (srcW / targetRatio)%Q;
                   cropX := 0; cropY := ((srcH - srcW / targetRatio) / 2)%Q |}
    end.
Proof.
  destruct ratio_parts as (H11 & H43 & H169).
  destruct c; cbn [ratioComponents]; intros Hc; try discriminate;
    injection Hc as <- <-; unfold cropWindow;
    [rewrite H11 | rewrite H43 | rewrite H169]; reflexivity.
Qed.

(** C8.  For a source of positive width and height, every crop ratio and
    every rotation, the crop window and the canvas size of the draw effect
    are those of the reference algorithm of the specification; a 1000x500
    source cropped to 1:1 gives a 500x500 window at (250, 0); an 800x600 crop
    gets a 600x800 canvas at 90 degrees and an 800x600 one at 180. *)
Theorem geometry_matches_reference :
  (forall image c rot,
      0 < naturalWidth image ->
      0 < naturalHeight image ->
      exists crop,
        cropWindow image c = Some crop
        /\ (crop, canvasSize crop rot)
           = GeometryResolver (naturalWidth image) (naturalHeight image) c rot
        /\ (canvasSize crop rot = (cropH crop, cropW crop) <-> rot mod 180 <> 0
            \/ cropW crop = cropH crop))
  /\ (exists crop,
        cropWindow (mkImage 1000 500) ratio_1_1 = Some crop
        /\ (cropW crop == 500)%Q /\ (cropH crop == 500)%Q
        /\ (cropX crop == 250)%Q /\ (cropY crop == 0)%Q)
  /\ (forall x y,
        canvasSize (mkCrop 800 600 x y) 90 = (600%Q, 800%Q)
        /\ canvasSize (mkCrop 800 600 x y) 180 = (800%Q, 600%Q)).
Proof.
  split; [| split].
  - intros image c rot _ _.
    assert (Hbox : forall crop,
               canvasSize crop rot =
                 if Z.eq_dec (rot mod 180) 0
                 then (cropW crop, cropH crop) else (cropH crop, cropW crop)).
    { intros crop. unfold canvasSize. rewrite isRotated_mod.
      destruct (Z.eq_dec (rot mod 180) 0) as [Hm | Hm].
      - now rewrite Hm.
      - apply Z.eqb_neq in Hm. now rewrite Hm. }
    assert (Hswap : forall crop,
               canvasSize crop rot = (cropH crop, cropW crop)
               <-> rot mod 180 <> 0 \/ cropW crop = cropH crop).
    { intros crop. rewrite Hbox.
      destruct (Z.eq_dec (rot mod 180) 0) as [Hm | Hm]; split.
      - intros E. right. now injection E.
      - intros [Hne | ->]; [contradiction | reflexivity].
      - intros _. now left.
      - reflexivity. }
    unfold GeometryResolver.
    destruct (ratioComponents c) as [[rw rh] |] eqn:Hc.
    + rewrite (cropWindow_ratio image c rw rh Hc). cbv zeta.
      destruct (Qlt_le_dec (inject_Z rw / inject_Z rh)
                  (inject_Z (naturalWidth image) / inject_Z (naturalHeight image)))
        as [Hlt | Hle].
      * apply Qgt_alt in Hlt. rewrite Hlt.
        eexists. split; [reflexivity |]. split; [| apply Hswap].
        now rewrite Hbox.
      * apply Qle_alt in Hle.
        destruct (inject_Z (naturalWidth image) / inject_Z (naturalHeight image)
                  ?= inject_Z rw / inject_Z rh)%Q eqn:Hcmp;
          try (exfalso; apply Hle; reflexivity);
          (eexists; split; [reflexivity |]; split; [| apply Hswap]; now rewrite Hbox).
    + destruct c; try discriminate.
      eexists. split; [reflexivity |]. split; [| apply Hswap]. now rewrite Hbox.
  - eexists. split; [reflexivity |]. repeat split.
  - intros x y. split; reflexivity.
Qed.

Lemma geometry_matches_reference_witness :
  exists crop,
    cropWindow (mkImage 1000 500) ratio_1_1 = Some crop
    /\ (crop, canvasSize crop 90) = GeometryResolver 1000 500 ratio_1_1 90.
Proof.
  destruct (proj1 geometry_matches_reference (mkImage 1000 500) ratio_1_1 90)
    as (crop & Hc & Hg & _).
  - reflexivity.
  - reflexivity.
  - exists crop. split; [exact Hc | exact Hg].
Defined.

(** C10.  For a source of positive width and height and each of the ratios
    1:1, 4:3 and 16:9, the crop window computed in exact rational arithmetic
    has positive width and height, lies inside the source, and has exactly
    the requested ratio. *)
Theorem crop_window_inside_source image c rw rh :
  0 < naturalWidth image ->
  0 < naturalHeight image ->
  ratioComponents c = Some (rw, rh) ->
  exists crop,
    cropWindow image c = Some crop
    /\ (0 <= cropX crop)%Q
    /\ (0 <= cropY crop)%Q
    /\ (cropX crop + cropW crop <= inject_Z (naturalWidth image))%Q
    /\ (cropY crop + cropH crop <= inject_Z (naturalHeight image))%Q
    /\ (0 < cropW crop)%Q
    /\ (0 < cropH crop)%Q
    /\ (cropW crop / cropH crop == inject_Z rw / inject_Z rh)%Q.
Proof.
  intros HW HH Hc. rewrite (cropWindow_ratio image c rw rh Hc). cbv zeta.
  assert (HWq : (0 < inject_Z (naturalWidth image))%Q)
    by (rewrite <- (Zlt_Qlt 0); exact HW).
  assert (HHq : (0 < inject_Z (naturalHeight image))%Q)
    by (rewrite <- (Zlt_Qlt 0); exact HH).
  assert (Hr : (0 < inject_Z rw / inject_Z rh)%Q).
  { destruct c; cbn [ratioComponents] in Hc; try discriminate;
      injection Hc as <- <-; reflexivity. }
  set (Wq := inject_Z (naturalWidth image)) in *.
  set (Hq := inject_Z (naturalHeight image)) in *.
  set (r := (inject_Z rw / inject_Z rh)%Q) in *.
  destruct (Wq / Hq ?= r)%Q eqn:Hcmp.
  - assert (Hle : (Wq / Hq <= r)%Q) by (apply Qle_alt; rewrite Hcmp; discriminate).
    destruct (tall_crop_inside Wq Hq r HWq HHq Hr Hle) as (Hy & Hyh & Hh & Hrat).
    eexists. split; [reflexivity |]. cbn [cropW cropH cropX cropY].
    repeat split; try assumption; lra.
  - assert (Hle : (Wq / Hq <= r)%Q) by (apply Qle_alt; rewrite Hcmp; discriminate).
    destruct (tall_crop_inside Wq Hq r HWq HHq Hr Hle) as (Hy & Hyh & Hh & Hrat).
    eexists. split; [reflexivity |]. cbn [cropW cropH cropX cropY].
    repeat split; try assumption; lra.
  - assert (Hgt : (r < Wq / Hq)%Q) by (apply Qgt_alt; exact Hcmp).
    destruct (wide_crop_inside Wq Hq r HWq HHq Hr Hgt) as (Hx & Hxw & Hw & Hrat).
    eexists. split; [reflexivity |]. cbn [cropW cropH cropX cropY].
    repeat split; try assumption; lra.
Qed.

Lemma crop_window_inside_source_witness :
  exists crop,
    cropWindow (mkImage 1000 500) ratio_16_9 = Some crop
    /\ (cropY crop + cropH crop <= 500)%Q
    /\ (cropW crop / cropH crop == 16 / 9)%Q.
Proof.
  destruct (crop_window_inside_source (mkImage 1000 500) ratio_16_9 16 9)
    as (crop & Hc & _ & _ & _ & Hy & _ & _ & Hr).
  - reflexivity.
  - reflexivity.
  - reflexivity.
  - exists crop. split; [exact Hc |]. split; [exact Hy | exact Hr].
Defined.

(** * Further properties of the editor *)

(** ** Undo, redo and commit together *)

Lemma session_eta s :
  {| history := history s; historyIndex := historyIndex s;
     currentState := currentState s |} = s.
Proof. now destruct s. Qed.

Lemma syncCurrentState_of_synced s : synced s -> syncCurrentState s = Some s.
Proof.
  unfold synced, syncCurrentState. intros ->. now rewrite session_eta.
Qed.

Lemma undo_then_redo_aux s :
  0 < historyIndex s <= Z.of_nat (length (history s)) - 1 ->
  exists s1,
    handleUndo s = Some s1
    /\ history s1 = history s
    /\ historyIndex s1 = historyIndex s - 1
    /\ js_index (history s1) (historyIndex s1) = Some (currentState s1)
    /\ handleRedo s1 = syncCurrentState s.
Proof.
  intros Hi. destruct (handleUndo_eq s Hi) as (st & Hst & Hu).
  eexists. split; [exact Hu |]. cbn [history historyIndex currentState].
  split; [reflexivity |]. split; [reflexivity |]. split; [exact Hst |].
  unfold handleRedo, syncCurrentState. cbn [history historyIndex].
  destruct (historyIndex s - 1 <? Z.of_nat (length (history s)) - 1) eqn:Hg;
    [| apply Z.ltb_ge in Hg; lia].
  replace (historyIndex s - 1 + 1) with (historyIndex s) by lia.
  reflexivity.
Qed.

(** X1.  Undo followed by redo comes back to the same cursor and history and
    shows the snapshot under the cursor: the session is unchanged when no
    live edit was pending, and a pending live edit is dropped. *)
Theorem undo_then_redo s :
  0 < historyIndex s <= Z.of_nat (length (history s)) - 1 ->
  exists s1,
    handleUndo s = Some s1
    /\ handleRedo s1 = syncCurrentState s
    /\ (synced s -> handleRedo s1 = Some s).
Proof.
  intros Hi. destruct (undo_then_redo_aux s Hi) as (s1 & Hu & _ & _ & _ & Hr).
  exists s1. split; [exact Hu |]. split; [exact Hr |].
  intros Hsync. rewrite Hr. now apply syncCurrentState_of_synced.
Qed.

Lemma undo_then_redo_witness :
  exists s1,
    handleUndo (mkSession [initialState; spread initialState brightness_120] 1
                  (spread initialState brightness_120)) = Some s1
    /\ handleRedo s1
       = Some (mkSession [initialState; spread initialState brightness_120] 1
                 (spread initialState brightness_120)).
Proof.
  destruct (undo_then_redo
              (mkSession [initialState; spread initialState brightness_120] 1
                 (spread initialState brightness_120)))
    as (s1 & Hu & _ & Hr).
  - cbn. lia.
  - exists s1. split; [exact Hu | apply Hr; reflexivity].
Defined.

(** X2.  Redo followed by undo likewise comes back to the same cursor and
    history and shows the snapshot under the cursor. *)
Theorem redo_then_undo s :
  0 <= historyIndex s < Z.of_nat (length (history s)) - 1 ->
  exists s1,
    handleRedo s = Some s1
    /\ handleUndo s1 = syncCurrentState s
    /\ (synced s -> handleUndo s1 = Some s).
Proof.
  intros Hi. destruct (handleRedo_eq s Hi) as (st & _ & Hr).
  eexists. split; [exact Hr |].
  assert (Hundo : handleUndo (mkSession (history s) (historyIndex s + 1) st)
                  = syncCurrentState s).
  { unfold handleUndo, syncCurrentState. cbn [history historyIndex].
    destruct (0 <? historyIndex s + 1) eqn:Hg; [| apply Z.ltb_ge in Hg; lia].
    replace (historyIndex s + 1 - 1) with (historyIndex s) by lia.
    reflexivity. }
  split; [exact Hundo |].
  intros Hsync. rewrite Hundo. now apply syncCurrentState_of_synced.
Qed.

Lemma redo_then_undo_witness :
  exists s1,
    handleRedo (mkSession [initialState; spread initialState brightness_120] 0
                  initialState) = Some s1
    /\ handleUndo s1
       = Some (mkSession [initialState; spread initialState brightness_120] 0
                 initialState).
Proof.
  destruct (redo_then_undo
              (mkSession [initialState; spread initialState brightness_120] 0
                 initialState))
    as (s1 & Hr & _ & Hu).
  - cbn. lia.
  - exists s1. split; [exact Hr | apply Hu; reflexivity].
Defined.

(** X3.  After a commit the cursor is on the last snapshot: the redo button
    is disabled and redo does nothing, while undo is enabled. *)
Theorem commit_disables_redo s p :
  0 <= historyIndex s <= Z.of_nat (length (history s)) - 1 ->
  exists s',
    commitChange s p = Some s'
    /\ redoDisabled s' = true
    /\ handleRedo s' = Some s'
    /\ undoDisabled s' = false.
Proof.
  intros Hi. eexists. split; [apply commitChange_eq; exact Hi |].
  assert (Hlen : length (take (Z.to_nat (historyIndex s + 1)) (history s)
                         ++ [spread (currentState s) p])
                 = Z.to_nat (historyIndex s + 2)).
  { rewrite length_app, length_take. cbn [length]. lia. }
  split; [| split].
  - unfold redoDisabled. cbn [history historyIndex]. rewrite Hlen.
    apply Z.geb_le. lia.
  - apply handleRedo_last. cbn [history historyIndex]. rewrite Hlen. lia.
  - unfold undoDisabled. cbn [historyIndex]. apply Z.leb_gt. lia.
Qed.

Lemma commit_disables_redo_witness :
  exists s', commitChange dragging emptyPartial = Some s' /\ redoDisabled s' = true.
Proof.
  destruct (commit_disables_redo dragging emptyPartial) as (s' & Hc & Hr & _).
  - cbn. lia.
  - exists s'. split; [exact Hc | exact Hr].
Defined.

(** X4.  Undo right after a commit shows the snapshot that was under the
    cursor before the commit, keeps the committed snapshot in the history,
    and a redo brings the committed state back. *)
Theorem commit_then_undo s p :
  0 <= historyIndex s <= Z.of_nat (length (history s)) - 1 ->
  exists s' s'',
    commitChange s p = Some s'
    /\ handleUndo s' = Some s''
    /\ history s'' = history s'
    /\ historyIndex s'' = historyIndex s
    /\ js_index (history s) (historyIndex s) = Some (currentState s'')
    /\ handleRedo s'' = Some s'.
Proof.
  intros Hi.
  set (s' := mkSession
               (take (Z.to_nat (historyIndex s + 1)) (history s)
                  ++ [spread (currentState s) p])
               (historyIndex s + 1) (spread (currentState s) p)).
  assert (Hs' : commitChange s p = Some s') by (apply commitChange_eq; exact Hi).
  assert (Hlen : Z.of_nat (length (history s')) = historyIndex s + 2).
  { subst s'. cbn [history]. rewrite length_app, length_take. cbn [length]. lia. }
  assert (Hsync : synced s').
  { subst s'. unfold synced. cbn [history historyIndex currentState].
    apply js_index_push. lia. }
  destruct (undo_then_redo_aux s') as (s'' & Hu & Hh & Hidx & Hcur & Hr).
  { subst s'. cbn [history historyIndex] in *. lia. }
  exists s', s''. split; [exact Hs' |]. split; [exact Hu |].
  split; [exact Hh |]. split; [rewrite Hidx; subst s'; cbn [historyIndex]; lia |].
  split.
  - rewrite Hh, Hidx in Hcur. subst s'. cbn [history historyIndex] in Hcur.
    replace (historyIndex s + 1 - 1) with (historyIndex s) in Hcur by lia.
    rewrite js_index_lookup in Hcur by lia. rewrite js_index_lookup by lia.
    rewrite lookup_app_l in Hcur by (rewrite length_take; lia).
    rewrite lookup_take_lt in Hcur by lia. exact Hcur.
  - rewrite Hr. now apply syncCurrentState_of_synced.
Qed.

Lemma commit_then_undo_witness :
  exists s' s'',
    commitChange dragging emptyPartial = Some s'
    /\ handleUndo s' = Some s''
    /\ js_index (history dragging) (historyIndex dragging) = Some (currentState s'').
Proof.
  destruct (commit_then_undo dragging emptyPartial)
    as (s' & s'' & Hc & Hu & _ & _ & Hcur & _).
  - cbn. lia.
  - exists s', s''. split; [exact Hc |]. split; [exact Hu | exact Hcur].
Defined.

(** X5.  The buttons agree with the handlers: the undo button is disabled
    exactly when [handleUndo] would leave the session as it is, and likewise
    for redo. *)
Theorem buttons_match_handlers s :
  (undoDisabled s = true <-> handleUndo s = Some s)
  /\ (redoDisabled s = true <-> handleRedo s = Some s).
Proof.
  split; split.
  - intros Hd. apply handleUndo_first. now apply Z.leb_le.
  - intros Hu. unfold undoDisabled. apply Z.leb_le.
    destruct (Z_le_gt_dec (historyIndex s) 0) as [Hle | Hgt]; [exact Hle |].
    exfalso. unfold handleUndo, syncCurrentState in Hu.
    destruct (0 <? historyIndex s) eqn:Hg; [| apply Z.ltb_ge in Hg; lia].
    cbn [history historyIndex] in Hu.
    destruct (js_index (history s) (historyIndex s - 1)); [| discriminate].
    injection Hu as Hu. apply (f_equal historyIndex) in Hu.
    cbn [historyIndex] in Hu. lia.
  - intros Hd. apply handleRedo_last. unfold redoDisabled in Hd.
    apply Z.geb_le in Hd. exact Hd.
  - intros Hr. unfold redoDisabled. apply Z.geb_le.
    destruct (Z_le_gt_dec (Z.of_nat (length (history s)) - 1) (historyIndex s))
      as [Hle | Hgt]; [exact Hle |].
    exfalso. unfold handleRedo, syncCurrentState in Hr.
    destruct (historyIndex s <? Z.of_nat (length (history s)) - 1) eqn:Hg;
      [| apply Z.ltb_ge in Hg; lia].
    cbn [history historyIndex] in Hr.
    destruct (js_index (history s) (historyIndex s + 1)); [| discriminate].
    injection Hr as Hr. apply (f_equal historyIndex) in Hr.
    cbn [historyIndex] in Hr. lia.
Qed.

Lemma buttons_match_handlers_witness :
  handleUndo openSession = Some openSession.
Proof.
  apply (proj1 (proj1 (buttons_match_handlers openSession))). reflexivity.
Defined.

Lemma undo_all_aux n :
  forall s,
    history s !! 0%nat = Some initialState ->
    historyIndex s = Z.of_nat (S n) ->
    historyIndex s <= Z.of_nat (length (history s)) - 1 ->
    run s (List.repeat Undo (S n))
      = Some (mkSession (history s) 0 initialState).
Proof.
  induction n as [| n IH]; intros s H0 Hidx Hlen.
  - cbn [List.repeat run step].
    destruct (handleUndo_eq s) as (st & Hst & Hu); [lia |].
    rewrite Hu. replace (historyIndex s - 1) with 0 in * by lia.
    rewrite js_index_lookup in Hst by lia.
    change (Z.to_nat 0) with 0%nat in Hst. rewrite H0 in Hst.
    now injection Hst as <-.
  - change (List.repeat Undo (S (S n))) with (Undo :: List.repeat Undo (S n)).
    cbn [run step].
    destruct (handleUndo_eq s) as (st & _ & Hu); [lia |].
    rewrite Hu. rewrite IH; cbn [history historyIndex]; [reflexivity | exact H0 | lia | lia].
Qed.

(** X6.  Undoing as many times as the cursor is high leads back to the first
    snapshot: the cursor is 0, the history is untouched and the working state
    is the default state, whatever live edit was pending. *)
Theorem undo_all_returns_to_default s :
  reachable s ->
  0 < historyIndex s ->
  run s (List.repeat Undo (Z.to_nat (historyIndex s)))
    = Some (mkSession (history s) 0 initialState).
Proof.
  intros Hr Hpos. destruct (reachable_history_ok s Hr) as [Hi H0].
  destruct (Z.to_nat (historyIndex s)) as [| n] eqn:Hn; [lia |].
  apply undo_all_aux; [exact H0 | lia | lia].
Qed.

Lemma undo_all_returns_to_default_witness :
  run (mkSession [initialState; spread initialState brightness_120] 1
         (spread initialState brightness_120)) [Undo]
    = Some (mkSession [initialState; spread initialState brightness_120] 0
              initialState).
Proof.
  refine (undo_all_returns_to_default
            (mkSession [initialState; spread initialState brightness_120] 1
               (spread initialState brightness_120)) _ _).
  - apply (reach_step openSession (Commit brightness_120)); [apply reach_open |].
    reflexivity.
  - reflexivity.
Defined.

Lemma step_synced s o s' :
  history_ok s -> synced s -> isLiveUpdate o = false ->
  step s o = Some s' -> synced s'.
Proof.
  intros [Hi H0] Hsync Hlive Hs.
  destruct o as [st | p | p | |]; cbn [step] in Hs; try discriminate Hlive.
  - rewrite pushToHistory_eq in Hs by exact Hi. injection Hs as <-.
    unfold synced. cbn [history historyIndex currentState].
    apply js_index_push. lia.
  - rewrite commitChange_eq in Hs by exact Hi. injection Hs as <-.
    unfold synced. cbn [history historyIndex currentState].
    apply js_index_push. lia.
  - destruct (Z.eq_dec (historyIndex s) 0) as [Hz | Hnz].
    + rewrite handleUndo_first in Hs by lia. now injection Hs as <-.
    + destruct (handleUndo_eq s) as (st & Hst & Hu); [lia |].
      rewrite Hu in Hs. injection Hs as <-. exact Hst.
  - destruct (Z.eq_dec (historyIndex s) (Z.of_nat (length (history s)) - 1))
      as [Hz | Hnz].
    + rewrite handleRedo_last in Hs by lia. now injection Hs as <-.
    + destruct (handleRedo_eq s) as (st & Hst & Hr); [lia |].
      rewrite Hr in Hs. injection Hs as <-. exact Hst.
Qed.

(** X7.  As long as no live update is issued, the working state is the
    snapshot under the cursor: every run of commits, undos and redos from
    session open succeeds and ends with [currentState = history[historyIndex]]. *)
Theorem no_live_update_stays_synced ops :
  forallb (fun o => negb (isLiveUpdate o)) ops = true ->
  exists s,
    run openSession ops = Some s
    /\ js_index (history s) (historyIndex s) = Some (currentState s).
Proof.
  assert (Hgen : forall ops s,
             history_ok s -> synced s ->
             forallb (fun o => negb (isLiveUpdate o)) ops = true ->
             exists s', run s ops = Some s' /\ synced s').
  { clear ops. induction ops as [| o ops IH]; intros s Hok Hsync Hall.
    - exists s. split; [reflexivity | exact Hsync].
    - cbn [forallb] in Hall. apply andb_prop in Hall as [Ho Hall].
      apply negb_true_iff in Ho.
      destruct (step_total s o Hok) as [s1 Hs1]. cbn [run]. rewrite Hs1.
      apply IH; [eapply history_ok_step; eauto | eapply step_synced; eauto | exact Hall]. }
  intros Hall. apply (Hgen ops openSession history_ok_open); [reflexivity | exact Hall].
Qed.

Lemma no_live_update_stays_synced_witness :
  exists s,
    run openSession [Commit brightness_120; Undo; Redo] = Some s
    /\ js_index (history s) (historyIndex s) = Some (currentState s).
Proof.
  apply (no_live_update_stays_synced [Commit brightness_120; Undo; Redo]).
  reflexivity.
Defined.

Lemma length_js_slice0 {A : Type} (a : list A) (e : Z) :
  (length (js_slice0 a e) <= length a)%nat.
Proof. unfold js_slice0. rewrite length_take. lia. Qed.

Lemma syncCurrentState_history s s' :
  syncCurrentState s = Some s' ->
  history s' = history s /\ historyIndex s' = historyIndex s.
Proof.
  unfold syncCurrentState. destruct (js_index (history s) (historyIndex s));
    [| discriminate].
  intros Hs. injection Hs as <-. split; reflexivity.
Qed.

(** X8.  Undo, redo and live updates never touch the history, and no
    operation makes it grow by more than one snapshot. *)
Theorem history_changes_only_on_commit s o s' :
  step s o = Some s' ->
  (o = Undo \/ o = Redo \/ (exists p, o = LiveUpdate p) -> history s' = history s)
  /\ (length (history s') <= length (history s) + 1)%nat.
Proof.
  intros Hs.
  assert (Hpush : forall s0 st,
             pushToHistory s0 st = Some s' ->
             (length (history s') <= length (history s0) + 1)%nat).
  { intros s0 st Hp. unfold pushToHistory in Hp.
    apply syncCurrentState_history in Hp as [-> _]. cbn [history].
    rewrite length_app. cbn [length].
    pose proof (length_js_slice0 (history s0) (historyIndex s0 + 1)). lia. }
  assert (Hundo : handleUndo s = Some s' -> history s' = history s).
  { unfold handleUndo. destruct (0 <? historyIndex s).
    - intros Hu. now apply syncCurrentState_history in Hu as [-> _].
    - intros Hu. now injection Hu as <-. }
  assert (Hredo : handleRedo s = Some s' -> history s' = history s).
  { unfold handleRedo.
    destruct (historyIndex s <? Z.of_nat (length (history s)) - 1).
    - intros Hr. now apply syncCurrentState_history in Hr as [-> _].
    - intros Hr. now injection Hr as <-. }
  destruct o as [st | p | p | |]; cbn [step] in Hs.
  - split; [intros [H | [H | [q H]]]; discriminate H | eapply Hpush; exact Hs].
  - split; [intros [H | [H | [q H]]]; discriminate H |].
    unfold commitChange in Hs. apply Hpush in Hs. exact Hs.
  - injection Hs as <-. split; [reflexivity | cbn; lia].
  - split; [intros _; now apply Hundo | rewrite Hundo by exact Hs; lia].
  - split; [intros _; now apply Hredo | rewrite Hredo by exact Hs; lia].
Qed.

Lemma history_changes_only_on_commit_witness :
  history dragging = history openSession.
Proof.
  refine (proj1 (history_changes_only_on_commit openSession
                   (LiveUpdate brightness_120) dragging _) _).
  - reflexivity.
  - right. right. exists brightness_120. reflexivity.
Defined.

Lemma commits_aux ps :
  forall s,
    0 <= historyIndex s ->
    historyIndex s = Z.of_nat (length (history s)) - 1 ->
    exists s',
      run s (map Commit ps) = Some s'
      /\ length (history s') = (length (history s) + length ps)%nat
      /\ historyIndex s' = Z.of_nat (length (history s')) - 1
      /\ currentState s' = fold_left spread ps (currentState s).
Proof.
  induction ps as [| p ps IH]; intros s Hpos Hidx.
  - exists s. cbn. split; [reflexivity |]. split; [lia |]. split; [exact Hidx | reflexivity].
  - cbn [map run step]. rewrite commitChange_eq by lia.
    set (s1 := mkSession _ _ _).
    assert (Hlen1 : length (history s1) = (length (history s) + 1)%nat).
    { subst s1. cbn [history]. rewrite length_app, length_take. cbn [length]. lia. }
    destruct (IH s1) as (s' & Hrun & Hlen & Hidx' & Hcur).
    + subst s1. cbn [historyIndex]. lia.
    + rewrite Hlen1. subst s1. cbn [historyIndex]. lia.
    + exists s'. split; [exact Hrun |]. split; [rewrite Hlen, Hlen1; cbn [length]; lia |].
      split; [exact Hidx' |]. rewrite Hcur. reflexivity.
Qed.

(** X9.  The history is not capped: any number of commits in a row from
    session open succeeds, leaves one snapshot per commit after the default
    one with the cursor on the last, and the working state is the default
    state with all the partials merged in order. *)
Theorem commits_accumulate ps :
  exists s,
    run openSession (map Commit ps) = Some s
    /\ length (history s) = S (length ps)
    /\ historyIndex s = Z.of_nat (length ps)
    /\ currentState s = fold_left spread ps initialState.
Proof.
  destruct (commits_aux ps openSession) as (s & Hrun & Hlen & Hidx & Hcur);
    [cbn; lia | reflexivity |].
  exists s. split; [exact Hrun |]. cbn [openSession history length] in Hlen.
  split; [exact Hlen |]. split; [rewrite Hidx, Hlen; lia | exact Hcur].
Qed.

(** ** Rotation *)

Lemma isRotated_quarter r : (90 | r) -> isRotated (r + 90) = negb (isRotated r).
Proof.
  intros [k ->]. rewrite !isRotated_mod. rewrite negb_involutive.
  destruct (Z.eqb_spec ((k * 90 + 90) mod 180) 0) as [H1 | H1];
    destruct (Z.eqb_spec ((k * 90) mod 180) 0) as [H2 | H2];
    try reflexivity; exfalso; revert H1 H2; Z.div_mod_to_equations; lia.
Qed.

Lemma isRotated_half r : isRotated (r + 180) = isRotated r.
Proof.
  rewrite !isRotated_mod. f_equal. f_equal.
  replace (r + 180) with (r + 1 * 180) by lia. apply Z_mod_plus_full.
Qed.

(** X10.  For a rotation that is a multiple of 90 degrees, one more quarter
    turn exchanges the width and the height of the canvas; a half turn more
    leaves the canvas size as it is, for every rotation. *)
Theorem quarter_turn_swaps_canvas crop r :
  ((90 | r) ->
   canvasSize crop (r + 90) = (snd (canvasSize crop r), fst (canvasSize crop r)))
  /\ canvasSize crop (r + 180) = canvasSize crop r.
Proof.
  split.
  - intros Hdiv. unfold canvasSize. rewrite (isRotated_quarter r Hdiv).
    now destruct (isRotated r).
  - unfold canvasSize. now rewrite isRotated_half.
Qed.

Lemma quarter_turn_swaps_canvas_witness :
  canvasSize (mkCrop 800 600 0 0) (270 + 90) = (800%Q, 600%Q).
Proof.
  rewrite (proj1 (quarter_turn_swaps_canvas (mkCrop 800 600 0 0) 270)).
  - reflexivity.
  - exists 3. reflexivity.
Defined.

Lemma rotateClicks_aux n :
  forall s,
    0 <= historyIndex s <= Z.of_nat (length (history s)) - 1 ->
    exists s',
      rotateClicks n s = Some s'
      /\ 0 <= historyIndex s' <= Z.of_nat (length (history s')) - 1
      /\ historyIndex s' = historyIndex s + Z.of_nat n
      /\ currentState s' =
           mkEditorState (brightness (currentState s)) (contrast (currentState s))
             (saturation (currentState s))
             (rotation (currentState s) + 90 * Z.of_nat n)
             (cropRatio (currentState s)) (filterPreset (currentState s)).
Proof.
  induction n as [| n IH]; intros s Hi.
  - exists s. split; [reflexivity |]. split; [exact Hi |]. split; [lia |].
    destruct (currentState s). cbn. f_equal. lia.
  - cbn [rotateClicks]. unfold rotateClick. rewrite commitChange_eq by exact Hi.
    set (s1 := mkSession _ _ _).
    destruct (IH s1) as (s' & Hrun & Hi' & Hidx & Hcur).
    + subst s1. cbn [history historyIndex]. rewrite length_app, length_take.
      cbn [length]. lia.
    + exists s'. split; [exact Hrun |]. split; [exact Hi' |].
      split; [rewrite Hidx; subst s1; cbn [historyIndex]; lia |].
      rewrite Hcur. subst s1.
      cbn -[Z.mul Z.add Z.of_nat]. f_equal. lia.
Qed.

(** X11.  The rotation is cumulative and never reduced modulo 360: n clicks
    on the rotate button add 90n to the rotation and n snapshots to the
    history, and change no other field; the canvas is in its swapped
    orientation exactly after an odd number of clicks from session open. *)
Theorem rotate_clicks_accumulate n :
  exists s,
    rotateClicks n openSession = Some s
    /\ historyIndex s = Z.of_nat n
    /\ currentState s = mkEditorState 100 100 100 (90 * Z.of_nat n) original "none"
    /\ isRotated (rotation (currentState s)) = Nat.odd n.
Proof.
  destruct (rotateClicks_aux n openSession) as (s & Hrun & _ & Hidx & Hcur);
    [cbn; lia |].
  exists s. split; [exact Hrun |]. split; [exact Hidx |]. split; [exact Hcur |].
  rewrite Hcur. cbn [rotation openSession currentState initialState].
  clear. induction n as [| n IH]; [reflexivity |].
  replace (0 + 90 * Z.of_nat (S n)) with (0 + 90 * Z.of_nat n + 90) by lia.
  rewrite isRotated_quarter by (exists (Z.of_nat n); lia).
  rewrite IH. now rewrite Nat.odd_succ, <- Nat.negb_odd.
Qed.

(** ** Filter buttons *)

(** X12.  The swatch table and the draw effect know the same preset names: a
    name has an empty preview style exactly when the draw effect adds nothing
    for it to the base stage. *)
Theorem preview_matches_pipeline name :
  getPreviewStyle name = "" <-> presetStage name = [].
Proof.
  unfold getPreviewStyle, presetStage, presetTable. cbn [assoc_string].
  repeat (destruct (String.eqb name _);
          [split; intros H; discriminate H |]).
  split; reflexivity.
Qed.

Lemma preview_matches_pipeline_witness : presetStage "none" = [].
Proof. apply (proj1 (preview_matches_pipeline "none")). reflexivity. Defined.

(** X13.  Releasing a slider after a drag gives the same session as
    committing the dragged values directly: a live update followed by a
    commit with no partial equals the commit of that partial. *)
Theorem drag_then_release s p :
  commitChange (updateCurrentState s p) emptyPartial = commitChange s p.
Proof.
  unfold commitChange, updateCurrentState. cbn [history historyIndex currentState].
  assert (Hid : spread (spread (currentState s) p) emptyPartial
                = spread (currentState s) p) by reflexivity.
  rewrite Hid. unfold pushToHistory. reflexivity.
Qed.

(** ** Crop window and canvas *)

(** X14.  "Crops are centered automatically": for a source of positive size
    and every crop ratio, the centre of the crop window is the centre of the
    source, and the window spans the whole width or the whole height. *)
Theorem crop_window_centered image c :
  0 < naturalWidth image ->
  0 < naturalHeight image ->
  exists crop,
    cropWindow image c = Some crop
    /\ (cropX crop + cropW crop / 2 == inject_Z (naturalWidth image) / 2)%Q
    /\ (cropY crop + cropH crop / 2 == inject_Z (naturalHeight image) / 2)%Q
    /\ (cropW crop = inject_Z (naturalWidth image)
        \/ cropH crop = inject_Z (naturalHeight image)).
Proof.
  intros _ _. destruct (ratioComponents c) as [[rw rh] |] eqn:Hc.
  - rewrite (cropWindow_ratio image c rw rh Hc). cbv zeta.
    generalize (inject_Z rw / inject_Z rh)%Q as r.
    generalize (inject_Z (naturalWidth image)) as Wq.
    generalize (inject_Z (naturalHeight image)) as Hq.
    intros Hq Wq r.
    destruct (Wq / Hq ?= r)%Q.
    + eexists. split; [reflexivity |]. cbn [cropW cropH cropX cropY].
      generalize (Wq / r)%Q as h. intros h.
      split; [field |]. split; [field | now left].
    + eexists. split; [reflexivity |]. cbn [cropW cropH cropX cropY].
      generalize (Wq / r)%Q as h. intros h.
      split; [field |]. split; [field | now left].
    + eexists. split; [reflexivity |]. cbn [cropW cropH cropX cropY].
      generalize (Hq * r)%Q as w. intros w.
      split; [field |]. split; [field | now right].
  - destruct c; try discriminate.
    eexists. split; [reflexivity |]. cbn [cropW cropH cropX cropY].
    split; [field |]. split; [field | now left].
Qed.

Lemma crop_window_centered_witness :
  exists crop,
    cropWindow (mkImage 1000 500) ratio_4_3 = Some crop
    /\ (cropX crop + cropW crop / 2 == 500)%Q.
Proof.
  destruct (crop_window_centered (mkImage 1000 500) ratio_4_3)
    as (crop & Hc & Hx & _).
  - reflexivity.
  - reflexivity.
  - exists crop. split; [exact Hc |]. rewrite Hx. reflexivity.
Defined.

(** X15.  A source that already has the requested ratio is not cropped: the
    crop window is the whole source. *)
Theorem crop_window_same_ratio image c rw rh :
  0 < naturalWidth image ->
  0 < naturalHeight image ->
  ratioComponents c = Some (rw, rh) ->
  naturalWidth image * rh = naturalHeight image * rw ->
  exists crop,
    cropWindow image c = Some crop
    /\ cropW crop = inject_Z (naturalWidth image)
    /\ (cropH crop == inject_Z (naturalHeight image))%Q
    /\ cropX crop = 0%Q
    /\ (cropY crop == 0)%Q.
Proof.
  intros HW HH Hc Hratio.
  assert (Hrw : 0 < rw /\ 0 < rh).
  { destruct c; cbn [ratioComponents] in Hc; try discriminate;
      injection Hc as <- <-; lia. }
  rewrite (cropWindow_ratio image c rw rh Hc). cbv zeta.
  assert (HWq : (0 < inject_Z (naturalWidth image))%Q)
    by (rewrite <- (Zlt_Qlt 0); exact HW).
  assert (HHq : (0 < inject_Z (naturalHeight image))%Q)
    by (rewrite <- (Zlt_Qlt 0); exact HH).
  assert (Hrwq : (0 < inject_Z rw)%Q) by (rewrite <- (Zlt_Qlt 0); lia).
  assert (Hrhq : (0 < inject_Z rh)%Q) by (rewrite <- (Zlt_Qlt 0); lia).
  assert (Hq : (inject_Z (naturalWidth image) * inject_Z rh
                == inject_Z (naturalHeight image) * inject_Z rw)%Q).
  { rewrite <- !inject_Z_mult. now rewrite Hratio. }
  set (Wq := inject_Z (naturalWidth image)) in *.
  set (Hq' := inject_Z (naturalHeight image)) in *.
  set (a := inject_Z rw) in *. set (b := inject_Z rh) in *.
  assert (Heq : (Wq / Hq' == a / b)%Q).
  { apply (Qmult_inj_r _ _ (Hq' * b)); [intros E; nra |].
    transitivity (Wq * b)%Q; [field; lra |].
    rewrite Hq. field. lra. }
  assert (Hh : (Wq / (a / b) == Hq')%Q).
  { transitivity (Wq * b / a)%Q; [field; split; lra |].
    rewrite Hq. field. lra. }
  apply Qeq_alt in Heq. rewrite Heq.
  eexists. split; [reflexivity |]. cbn [cropW cropH cropX cropY].
  split; [reflexivity |]. split; [exact Hh |]. split; [reflexivity |].
  rewrite Hh. field.
Qed.

Lemma crop_window_same_ratio_witness :
  exists crop,
    cropWindow (mkImage 800 600) ratio_4_3 = Some crop
    /\ cropW crop = 800%Q /\ (cropH crop == 600)%Q.
Proof.
  destruct (crop_window_same_ratio (mkImage 800 600) ratio_4_3 4 3)
    as (crop & Hc & Hw & Hh & _).
  - reflexivity.
  - reflexivity.
  - reflexivity.
  - reflexivity.
  - exists crop. split; [exact Hc |]. split; [exact Hw | exact Hh].
Defined.

(** * Properties of the gallery *)

(** X16.  Deleting an image removes every image with that id and nothing
    else; deleting an id that is not in the gallery changes nothing. *)
Theorem delete_removes_exactly_id id prev :
  (forall img, In img (handleDeleteImage id prev) <-> In img prev /\ gi_id img <> id)
  /\ ((forall img, In img prev -> gi_id img <> id) -> handleDeleteImage id prev = prev).
Proof.
  split.
  - intros img. unfold handleDeleteImage. rewrite filter_In.
    rewrite negb_true_iff, String.eqb_neq. reflexivity.
  - intros Habs. unfold handleDeleteImage.
    induction prev as [| img prev IH]; [reflexivity |]. cbn [List.filter].
    destruct (String.eqb_spec (gi_id img) id) as [E | _].
    + exfalso. apply (Habs img); [now left | exact E].
    + cbn [negb]. f_equal. apply IH. intros img' Hin. apply Habs. now right.
Qed.

Lemma delete_removes_exactly_id_witness :
  handleDeleteImage "b"
    [mkGeneratedImage "a" "" "" None Square 0 None None None None]
  = [mkGeneratedImage "a" "" "" None Square 0 None None None None].
Proof.
  apply (proj2 (delete_removes_exactly_id "b"
                  [mkGeneratedImage "a" "" "" None Square 0 None None None None])).
  intros img [<- | []]. discriminate.
Defined.

(** X17.  Saving an edit clears the image being edited, keeps the number,
    the order and the ids of the images, gives the new URL and the current
    time to the images with the id of the edited one and leaves the others
    untouched; with no image being edited nothing changes. *)
Theorem save_edited_replaces_url now newUrl imgs e :
  let r := handleSaveEditedImage now newUrl (imgs, Some e) in
  snd r = None
  /\ map gi_id (fst r) = map gi_id imgs
  /\ (forall i img, imgs !! i = Some img -> gi_id img <> gi_id e ->
                    fst r !! i = Some img)
  /\ (forall i img, imgs !! i = Some img -> gi_id img = gi_id e ->
        exists img', fst r !! i = Some img'
                     /\ gi_url img' = newUrl /\ gi_timestamp img' = now
                     /\ gi_prompt img' = gi_prompt img
                     /\ gi_status img' = gi_status img)
  /\ handleSaveEditedImage now newUrl (imgs, None) = (imgs, None).
Proof.
  cbn [handleSaveEditedImage fst snd].
  split; [reflexivity |]. split.
  { rewrite map_map. apply map_ext. intros img.
    now destruct (String.eqb (gi_id img) (gi_id e)). }
  split; [| split; [| reflexivity]].
  - intros i img Hi Hne. rewrite list_lookup_fmap, Hi. cbn.
    apply String.eqb_neq in Hne. now rewrite Hne.
  - intros i img Hi He. rewrite list_lookup_fmap, Hi. cbn.
    apply String.eqb_eq in He. rewrite He. eexists. split; [reflexivity |].
    cbn. repeat split.
Qed.

Lemma save_edited_replaces_url_witness :
  map gi_id
    (fst (handleSaveEditedImage 7 "new"
            ([mkGeneratedImage "a" "old" "" None Square 0 None None None None],
             Some (mkGeneratedImage "a" "old" "" None Square 0 None None None None))))
  = ["a"].
Proof.
  apply (proj1 (proj2 (save_edited_replaces_url 7 "new"
           [mkGeneratedImage "a" "old" "" None Square 0 None None None None]
           (mkGeneratedImage "a" "old" "" None Square 0 None None None None)))).
Defined.

Lemma includes_progress ids p m imgs :
  map gi_id (generate_progress ids p m imgs) = map gi_id imgs.
Proof.
  unfold generate_progress. rewrite map_map. apply map_ext. intros img.
  now destruct (includes ids (gi_id img)).
Qed.

Lemma generate_progress_app ids p m a b :
  generate_progress ids p m (a ++ b)
  = generate_progress ids p m a ++ generate_progress ids p m b.
Proof. unfold generate_progress. apply map_app. Qed.

Lemma generate_progress_outside ids p m imgs :
  (forall img, In img imgs -> includes ids (gi_id img) = false) ->
  generate_progress ids p m imgs = imgs.
Proof.
  intros Hout. unfold generate_progress.
  induction imgs as [| img imgs IH]; [reflexivity |]. cbn [map].
  rewrite (Hout img) by now left. f_equal. apply IH.
  intros img' Hin. apply Hout. now right.
Qed.

Lemma remove_inside ids imgs :
  Forall (fun id => includes ids id = true) (map gi_id imgs) ->
  List.filter (fun img => negb (includes ids (gi_id img))) imgs = [].
Proof.
  induction imgs as [| img imgs IH]; [reflexivity |]. cbn [map List.filter].
  intros Hall. apply Forall_cons_1 in Hall as [Hin Hall].
  rewrite Hin. cbn [negb]. now apply IH.
Qed.

Lemma remove_outside ids imgs :
  (forall img, In img imgs -> includes ids (gi_id img) = false) ->
  List.filter (fun img => negb (includes ids (gi_id img))) imgs = imgs.
Proof.
  intros Hout. induction imgs as [| img imgs IH]; [reflexivity |].
  cbn [List.filter]. rewrite (Hout img) by now left. cbn [negb]. f_equal.
  apply IH. intros img' Hin. apply Hout. now right.
Qed.

Lemma includes_self ids id : In id ids -> includes ids id = true.
Proof.
  intros Hin. unfold includes. apply existsb_exists. exists id.
  split; [exact Hin | apply String.eqb_refl].
Qed.

Lemma generate_reports_shape ids reports ph prev :
  (forall img, In img prev -> includes ids (gi_id img) = false) ->
  exists ph',
    generate_reports ids reports (ph ++ prev) = ph' ++ prev
    /\ map gi_id ph' = map gi_id ph.
Proof.
  intros Hout. unfold generate_reports. revert ph.
  induction reports as [| [p m] reports IH]; intros ph.
  - exists ph. split; reflexivity.
  - cbn [fold_left fst snd]. rewrite generate_progress_app.
    rewrite (generate_progress_outside ids p m prev Hout).
    destruct (IH (generate_progress ids p m ph)) as (ph' & Heq & Hids).
    exists ph'. split; [exact Heq |]. now rewrite Hids, includes_progress.
Qed.

(** X18.  When the ids drawn for the placeholders are not those of images
    already in the gallery, a failed generation leaves the gallery exactly as
    it was before the request, and a successful one leaves the new images
    followed by the gallery as it was, whatever progress reports came in
    between. *)
Theorem generation_restores_gallery prompt scale ratio style fresh reports newImages prev :
  (forall img, In img prev -> includes (map fst fresh) (gi_id img) = false) ->
  let ids := map fst fresh in
  let during :=
    generate_reports ids reports
      (generate_prepend (placeholders prompt scale ratio style fresh) prev) in
  generate_remove ids during = prev
  /\ generate_replace ids newImages during = newImages ++ prev.
Proof.
  intros Hout ids during.
  destruct (generate_reports_shape ids reports
              (placeholders prompt scale ratio style fresh) prev Hout)
    as (ph' & Heq & Hids).
  assert (Hfilter : List.filter (fun img => negb (includes ids (gi_id img))) during
                    = prev).
  { subst during. unfold generate_prepend. rewrite Heq.
    rewrite List.filter_app. rewrite (remove_outside ids prev Hout).
    rewrite remove_inside; [reflexivity |].
    rewrite Hids. unfold placeholders. rewrite map_map. cbn [gi_id].
    apply List.Forall_forall. intros id Hin. apply includes_self. exact Hin. }
  split.
  - exact Hfilter.
  - unfold generate_replace. now rewrite Hfilter.
Qed.

Lemma generation_restores_gallery_witness :
  generate_remove ["p1"; "p2"]
    (generate_reports ["p1"; "p2"] [(0, "Initializing AI model..."); (12, "Initializing AI model...")]
       (generate_prepend
          (placeholders "a cat" (15 # 2) Square Anime [("p1", 1); ("p2", 2)])
          [mkGeneratedImage "a" "u" "" None Square 0 None None None None]))
  = [mkGeneratedImage "a" "u" "" None Square 0 None None None None].
Proof.
  refine (proj1 (generation_restores_gallery "a cat" (15 # 2) Square Anime
                   [("p1", 1); ("p2", 2)]
                   [(0, "Initializing AI model..."); (12, "Initializing AI model...")]
                   []
                   [mkGeneratedImage "a" "u" "" None Square 0 None None None None]
                   _)).
  intros img [<- | []]. reflexivity.
Defined.

Lemma string_app_empty_r (s : string) : (s ++ "")%string = s.
Proof. induction s as [| c s IH]; cbn; [reflexivity | now rewrite IH]. Qed.

(** X19.  Adding a suggestion always leaves a prompt that ends with the
    suggestion (and is the suggestion alone when the prompt was blank), and
    removes every copy of the suggestion from the list while keeping the
    other suggestions. *)
Theorem addSuggestion_appends trim suggestion prompt suggestions :
  let r := addSuggestion trim suggestion (prompt, suggestions) in
  (exists before, fst r = (before ++ suggestion)%string)
  /\ (trim prompt = "" -> fst r = suggestion)
  /\ ~ In suggestion (snd r)
  /\ (forall s, s <> suggestion -> (In s (snd r) <-> In s suggestions)).
Proof.
  cbn [addSuggestion fst snd]. split; [| split; [| split]].
  - destruct (String.length (trim prompt) =? 0)%nat.
    + exists "". reflexivity.
    + destruct (endsWith_comma (trim prompt)).
      * exists (trim prompt ++ " ")%string. now rewrite string_app_assoc.
      * exists (trim prompt ++ ", ")%string. now rewrite string_app_assoc.
  - intros ->. reflexivity.
  - rewrite filter_In. intros [_ Hne]. now rewrite String.eqb_refl in Hne.
  - intros s Hne. rewrite filter_In. apply String.eqb_neq in Hne. rewrite Hne.
    cbn [negb]. tauto.
Qed.

Lemma addSuggestion_appends_witness :
  fst (addSuggestion (fun s => s) "neon" ("", ["neon"; "fog"])) = "neon".
Proof.
  apply (proj1 (proj2 (addSuggestion_appends (fun s => s) "neon" "" ["neon"; "fog"]))).
  reflexivity.
Defined.

(** * Properties of the generation service *)

(** X20.  The prompt sent to the image model is the user's prompt followed
    by the modifier of the style; the generic fallback suffix is never used,
    and with the style None the prompt is sent as typed. *)
Theorem finalPrompt_appends_modifier prompt style :
  finalPrompt prompt style = (prompt ++ styleModifiers style)%string
  /\ finalPrompt prompt StyleNone = prompt.
Proof.
  split; [| reflexivity].
  destruct style; try reflexivity.
  cbn. now rewrite string_app_empty_r.
Qed.

Lemma msgIndex_range cp : 0 <= msgIndex cp <= 5.
Proof.
  unfold msgIndex.
  destruct (85 <? cp); [lia |]. destruct (70 <? cp); [lia |].
  destruct (50 <? cp); [lia |]. destruct (30 <? cp); [lia |].
  destruct (15 <? cp); lia.
Qed.




(** X22.  The loading message never goes back: a higher progress selects the
    same or a later message. *)
Theorem msgIndex_monotone cp1 cp2 :
  cp1 <= cp2 -> 0 <= msgIndex cp1 <= msgIndex cp2 /\ msgIndex cp2 <= 5.
Proof.
  intros Hle. pose proof (msgIndex_range cp1). pose proof (msgIndex_range cp2).
  split; [split; [lia |] | lia].
  unfold msgIndex.
  destruct (Z.ltb_spec 85 cp1), (Z.ltb_spec 85 cp2); try lia;
    destruct (Z.ltb_spec 70 cp1), (Z.ltb_spec 70 cp2); try lia;
    destruct (Z.ltb_spec 50 cp1), (Z.ltb_spec 50 cp2); try lia;
    destruct (Z.ltb_spec 30 cp1), (Z.ltb_spec 30 cp2); try lia;
    destruct (Z.ltb_spec 15 cp1), (Z.ltb_spec 15 cp2); lia.
Qed.

Lemma msgIndex_monotone_witness : msgIndex 16 <= msgIndex 86.
Proof.
  destruct (msgIndex_monotone 16 86) as [[_ Hle] _]; [lia | exact Hle].
Defined.

Lemma progressAfter_bounds rs :
  Forall (fun r => 0 <= r <= 9) rs ->
  forall cp,
    0 <= cp <= 90 ->
    Z.min (cp + 2 * Z.of_nat (length rs)) 90 <= progressAfter rs cp <= 90
    /\ cp <= progressAfter rs cp.
Proof.
  unfold progressAfter.
  induction 1 as [| r rs Hr _ IH]; intros cp Hcp.
  - cbn [fold_left length]. lia.
  - cbn [fold_left length].
    assert (Hstep : cp <= fst (progressTick cp r) <= 90
                    /\ Z.min (cp + 2) 90 <= fst (progressTick cp r)).
    { unfold progressTick. destruct (Z.ltb_spec cp 90); cbn [fst]; lia. }
    destruct (IH (fst (progressTick cp r))) as [Hlo Hmono]; [lia |]. lia.
Qed.

(** X23.  Whatever the random draws (each between 0 and 9), the simulated
    progress starting from 0 never decreases, never passes 90, is at least
    twice the number of firings until it reaches 90, and is exactly 90 once
    the interval has fired 45 times: the value 100 is never simulated. *)
Theorem simulated_progress_capped rs :
  Forall (fun r => 0 <= r <= 9) rs ->
  0 <= progressAfter rs 0 <= 90
  /\ Z.min (2 * Z.of_nat (length rs)) 90 <= progressAfter rs 0
  /\ ((45 <= length rs)%nat -> progressAfter rs 0 = 90)
  /\ (forall r, 0 <= r <= 9 ->
        progressAfter rs 0 <= progressAfter (rs ++ [r]) 0).
Proof.
  intros Hrs.
  destruct (progressAfter_bounds rs Hrs 0) as [Hlo Hmono]; [lia |].
  split; [lia |]. split; [lia |]. split; [lia |].
  intros r Hr. unfold progressAfter. rewrite fold_left_app. cbn [fold_left].
  fold (progressAfter rs 0).
  unfold progressTick. destruct (Z.ltb_spec (progressAfter rs 0) 90); cbn [fst]; lia.
Qed.

Lemma simulated_progress_capped_witness :
  0 <= progressAfter [9; 0; 4] 0 <= 90.
Proof.
  apply (simulated_progress_capped [9; 0; 4]).
  repeat constructor; lia.
Defined.

Lemma length_filter_le {A : Type} (f : A -> bool) (l : list A) :
  (length (List.filter f l) <= length l)%nat.
Proof.
  induction l as [| x l IH]; cbn [List.filter length]; [lia |].
  destruct (f x); cbn [length]; lia.
Qed.

(** X24.  The suggestions returned are at most eight, each between 1 and 29
    characters long, whatever the text model answered; a prompt shorter than
    three characters and a failed request both give no suggestion. *)
Theorem suggestions_bounded trim originalPrompt response :
  (length (getPromptSuggestions trim originalPrompt response) <= 8)%nat
  /\ (forall s, In s (getPromptSuggestions trim originalPrompt response) ->
                (1 <= String.length s <= 29)%nat)
  /\ ((String.length originalPrompt < 3)%nat ->
      getPromptSuggestions trim originalPrompt response = [])
  /\ getPromptSuggestions trim originalPrompt None = [].
Proof.
  unfold getPromptSuggestions.
  split; [| split; [| split]].
  - destruct (String.length originalPrompt <? 3)%nat; [cbn; lia |].
    destruct response as [responseText |]; [| cbn; lia].
    unfold js_slice0. cbv zeta. cbn [Z.ltb Z.compare]. rewrite length_take. lia.
  - intros s. destruct (String.length originalPrompt <? 3)%nat; [intros [] |].
    destruct response as [responseText |]; [| intros []].
    unfold js_slice0. cbv zeta. cbn [Z.ltb Z.compare]. intros Hin.
    apply list_elem_of_In in Hin. apply elem_of_take in Hin as (i & Hi & _).
    apply list_elem_of_lookup_2, list_elem_of_In in Hi.
    apply filter_In in Hi as [_ Hlen].
    apply andb_prop in Hlen as [H1 H2].
    apply Nat.ltb_lt in H1, H2. lia.
  - intros Hshort. apply Nat.ltb_lt in Hshort. now rewrite Hshort.
  - now destruct (String.length originalPrompt <? 3)%nat.
Qed.

Lemma suggestions_bounded_witness :
  getPromptSuggestions (fun s => s) "ab" (Some (Some "x,y")) = [].
Proof.
  apply (proj1 (proj2 (proj2 (suggestions_bounded (fun s => s) "ab"
                                (Some (Some "x,y")))))).
  cbn. lia.
Defined.


